(** * MiniatureRedis: the wire codec, the command table and the connection loop

    A shallow embedding of [MiniatureRedis_py/ser.py]: the classes
    [ProtocolHandler], [Server] and [Client], the Python values they
    exchange, and the exceptions they raise.  Each definition names the
    lines of [ser.py] it embeds. *)

From Stdlib Require Import ZArith NArith List Bool String Ascii Lia.
From Stdlib.Strings Require Import Byte.
From Stdlib Require Decimal DecimalPos DecimalN.
Import ListNotations.

Local Open Scope Z_scope.
Local Open Scope list_scope.

(** ** Exceptions and results *)

(** The exceptions of [ser.py] (lines 14-15) and the built-in ones its
    operations raise.  Only [CommandError] carries a message the program
    reads back ([exc.args[0]], line 166).  What the interpreter raises at a
    limit of its own (the depth of the recursion, the digits of an integer
    conversion, the memory or the size range of a sized read) is not among
    them: these limits are not modelled. *)
Inductive exn : Type :=
| Disconnect
| CommandError (message : string)
| KeyError
| ValueError
| TypeError
| AttributeError
| NameError
| UnicodeDecodeError.

(** A computation returns, raises, or exhausts the recursion budget of the
    embedding ([OutOfFuel] is not a Python outcome; the decoder is shown
    below never to reach it on a budget above the length of its input). *)
Inductive result (A : Type) : Type :=
| Ok (a : A)
| Raise (e : exn)
| OutOfFuel.

Arguments Ok {A} a.
Arguments Raise {A} e.
Arguments OutOfFuel {A}.

Definition bind {A B : Type} (r : result A) (k : A -> result B) : result B :=
  match r with
  | Ok a => k a
  | Raise e => Raise e
  | OutOfFuel => OutOfFuel
  end.

Notation "x <- r ;; k" := (bind r (fun x => k))
  (at level 61, r at next level, right associativity).
Notation "' p <- r ;; k" := (bind r (fun x => let p := x in k))
  (at level 61, p pattern, r at next level, right associativity).

(** ** Bytes *)

Definition bytes : Type := list byte.

Definition bytes_of (s : string) : bytes := list_byte_of_string s.

Definition CR : byte := x0d.
Definition LF : byte := x0a.
Definition CRLF : bytes := [CR; LF].

Definition bytes_eqb (x y : bytes) : bool :=
  if list_eq_dec byte_eq_dec x y then true else false.

(** [Py_ISSPACE]: the bytes [int()] and [bytes.split()] treat as blank. *)
Definition is_space (c : byte) : bool :=
  match c with
  | x09 | x0a | x0b | x0c | x0d | x20 => true
  | _ => false
  end.

(** The set given to [rstrip(b'\r\n')]. *)
Definition is_crlf (c : byte) : bool :=
  match c with
  | x0d | x0a => true
  | _ => false
  end.

(** [bytes.rstrip(chars)]: drops every trailing byte that belongs to
    [chars], not one terminator. *)
Fixpoint rstrip (chars : byte -> bool) (l : bytes) : bytes :=
  match l with
  | [] => []
  | c :: t =>
      match rstrip chars t with
      | [] => if chars c then [] else [c]
      | t' => c :: t'
      end
  end.

(** [x[:-2]] *)
Definition drop_last2 (l : bytes) : bytes :=
  firstn (List.length l - 2)%nat l.

(** [bytes.upper()]: only the ASCII letters a-z change. *)
Definition upper_byte (c : byte) : byte :=
  let n := Byte.to_N c in
  if (97 <=? n)%N && (n <=? 122)%N
  then match Byte.of_N (n - 32) with Some u => u | None => c end
  else c.

Definition bytes_upper (l : bytes) : bytes := map upper_byte l.

(** [x.split()] with no separator: maximal runs of non-blank items. *)
Fixpoint split_on {A : Type} (blank : A -> bool) (word : list A) (l : list A)
  : list (list A) :=
  match l with
  | [] => match word with [] => [] | _ => [List.rev word] end
  | c :: t =>
      if blank c
      then match word with
           | [] => split_on blank [] t
           | _ => List.rev word :: split_on blank [] t
           end
      else split_on blank (c :: word) t
  end.

Definition bytes_split (l : bytes) : list bytes := split_on is_space [] l.

(** [bytes.decode('ascii')] *)
Definition is_ascii (c : byte) : bool := (Byte.to_N c <? 128)%N.

Definition decode_ascii (l : bytes) : result string :=
  if forallb is_ascii l then Ok (string_of_list_byte l)
  else Raise UnicodeDecodeError.

(** A [str] is modelled by a [string] whose characters are its code points;
    only code points below 256 are representable, which covers every [str]
    this program builds (ASCII literals and results of [decode('ascii')]).
    [str.encode('utf-8')] then needs at most two bytes per code point. *)
Definition byte_of_N (n : N) : byte :=
  match Byte.of_N n with Some c => c | None => x00 end.

Definition utf8_char (c : ascii) : bytes :=
  let n := N_of_ascii c in
  if (n <? 128)%N then [byte_of_N n]
  else [byte_of_N (N.lor 192 (N.shiftr n 6));
        byte_of_N (N.lor 128 (N.land n 63))].

Fixpoint encode_utf8 (s : string) : bytes :=
  match s with
  | EmptyString => []
  | String c t => utf8_char c ++ encode_utf8 t
  end.

(** [str.isspace] on the code points below 256, for [str.split()]. *)
Definition is_space_char (c : ascii) : bool :=
  let n := N_of_ascii c in
  ((9 <=? n) && (n <=? 13) || (28 <=? n) && (n <=? 32)
   || (n =? 133) || (n =? 160))%N.

(** ** Integers as text *)

Fixpoint bytes_of_uint (d : Decimal.uint) : bytes :=
  match d with
  | Decimal.Nil => []
  | Decimal.D0 t => x30 :: bytes_of_uint t
  | Decimal.D1 t => x31 :: bytes_of_uint t
  | Decimal.D2 t => x32 :: bytes_of_uint t
  | Decimal.D3 t => x33 :: bytes_of_uint t
  | Decimal.D4 t => x34 :: bytes_of_uint t
  | Decimal.D5 t => x35 :: bytes_of_uint t
  | Decimal.D6 t => x36 :: bytes_of_uint t
  | Decimal.D7 t => x37 :: bytes_of_uint t
  | Decimal.D8 t => x38 :: bytes_of_uint t
  | Decimal.D9 t => x39 :: bytes_of_uint t
  end.

(** [b'%d' % n]: a minus sign for a negative number, then the decimal
    digits without leading zeros. *)
Definition format_d (n : Z) : bytes :=
  match n with
  | Z0 => [x30]
  | Zpos p => bytes_of_uint (Pos.to_uint p)
  | Zneg p => x2d :: bytes_of_uint (Pos.to_uint p)
  end.

Definition digit_val (c : byte) : option Z :=
  match c with
  | x30 => Some 0 | x31 => Some 1 | x32 => Some 2 | x33 => Some 3
  | x34 => Some 4 | x35 => Some 5 | x36 => Some 6 | x37 => Some 7
  | x38 => Some 8 | x39 => Some 9
  | _ => None
  end.

(** The digit run of an integer literal, entered after a first digit of
    value [acc]: digits, each optionally preceded by one underscore.  Returns
    the value and the unread bytes, or [None] for an underscore that no digit
    follows. *)
Fixpoint int_digits (acc : Z) (s : bytes) : option (Z * bytes) :=
  match s with
  | [] => Some (acc, [])
  | c :: t =>
      match digit_val c with
      | Some d => int_digits (10 * acc + d) t
      | None =>
          match c with
          | x5f =>
              match t with
              | c' :: t' =>
                  match digit_val c' with
                  | Some d => int_digits (10 * acc + d) t'
                  | None => None
                  end
              | [] => None
              end
          | _ => Some (acc, s)
          end
      end
  end.

Fixpoint lstrip (chars : byte -> bool) (l : bytes) : bytes :=
  match l with
  | c :: t => if chars c then lstrip chars t else l
  | [] => []
  end.

(** [int(x)] for a bytes object [x], base 10: blanks, an optional sign, the
    digit run, blanks; anything else is a [ValueError].  Python integers are
    unbounded; the interpreter's optional cap on the number of digits of a
    conversion is a run-time setting and is not modelled. *)
Definition py_int (x : bytes) : result Z :=
  let s := lstrip is_space x in
  let '(negative, s) :=
    match s with
    | x2b :: t => (false, t)
    | x2d :: t => (true, t)
    | _ => (false, s)
    end in
  match s with
  | c :: t =>
      match digit_val c with
      | Some d =>
          match int_digits d t with
          | Some (n, rest) =>
              if forallb is_space rest
              then Ok (if negative then - n else n)
              else Raise ValueError
          | None => Raise ValueError
          end
      | None => Raise ValueError
      end
  | [] => Raise ValueError
  end.

(** ** The socket file

    The read side of [conn.makefile('rwb')] is the list of bytes the peer
    sends before it closes; reads block, so a short read happens only at the
    end of that list. *)
Definition stream : Type := list byte.

(** [socket_file.read(size)]: a size below -1 is refused, -1 reads to the
    end of the input.  The buffered reader takes the size as a C
    [Py_ssize_t] and allocates the whole of a read that asks more than it
    holds; a size outside that range, or one it cannot allocate, raises
    [OverflowError] or [MemoryError] instead.  That is not modelled: [read]
    is the reader on the sizes it accepts, and a statement about a length
    field keeps to them: a negative size is above [PY_SSIZE_T_MIN], and a
    positive one is the number of bytes that the input holds, or at most
    two more. *)
Definition read (size : Z) (f : stream) : result (bytes * stream) :=
  if size <? -1 then Raise ValueError
  else if size =? -1 then Ok (f, [])
  else Ok (firstn (Z.to_nat size) f, skipn (Z.to_nat size) f).

(** [socket_file.readline()]: up to and including the first LF, or whatever
    is left at the end of the input. *)
Fixpoint readline (f : stream) : bytes * stream :=
  match f with
  | [] => ([], [])
  | c :: t =>
      match c with
      | x0a => ([c], t)
      | _ => let '(l, r) := readline t in (c :: l, r)
      end
  end.

(** ** Python values *)

(** The values the codec and the store exchange.  [VError] is the
    [Error] namedtuple of line 17, a one-field tuple. *)
#[local] Unset Elimination Schemes.
Inductive pyval : Type :=
| VNone
| VInt (n : Z)
| VBytes (b : bytes)
| VStr (s : string)
| VError (message : pyval)
| VList (items : list pyval)
| VTuple (items : list pyval)
| VDict (entries : list (pyval * pyval)).
#[local] Set Elimination Schemes.

(** Lists and dicts have no hash; a tuple has one when its items do. *)
Fixpoint hashable (v : pyval) : bool :=
  match v with
  | VNone | VInt _ | VBytes _ | VStr _ => true
  | VError message => hashable message
  | VTuple items => forallb hashable items
  | VList _ | VDict _ => false
  end.

(** [==] between hashable values, as a dict applies it to its keys.  An
    [Error] compares as the one-item tuple it is; the unhashable values never
    reach a key comparison. *)
Fixpoint key_eqb (x y : pyval) {struct x} : bool :=
  match x with
  | VNone => match y with VNone => true | _ => false end
  | VInt n => match y with VInt m => n =? m | _ => false end
  | VBytes b => match y with VBytes c => bytes_eqb b c | _ => false end
  | VStr s => match y with VStr t => String.eqb s t | _ => false end
  | VError message =>
      match y with
      | VError message' => key_eqb message message'
      | VTuple [item] => key_eqb message item
      | _ => false
      end
  | VTuple items =>
      match y with
      | VTuple items' =>
          (fix all2 (l l' : list pyval) {struct l} : bool :=
             match l, l' with
             | [], [] => true
             | a :: t, a' :: t' => key_eqb a a' && all2 t t'
             | _, _ => false
             end) items items'
      | VError message' =>
          match items with
          | [item] => key_eqb item message'
          | _ => false
          end
      | _ => false
      end
  | VList _ | VDict _ => false
  end.

(** ** Dicts

    A [dict] is its entries in insertion order.  Every dict built by the
    operations below keeps the invariant of a Python dict: the keys are
    hashable and pairwise different under [==]. *)
Definition pydict : Type := list (pyval * pyval).

Fixpoint dict_find (d : pydict) (key : pyval) : option pyval :=
  match d with
  | [] => None
  | (k, v) :: t => if key_eqb k key then Some v else dict_find t key
  end.

(** [d.get(key)] *)
Definition dict_get (d : pydict) (key : pyval) : result pyval :=
  if hashable key
  then Ok (match dict_find d key with Some v => v | None => VNone end)
  else Raise TypeError.

(** [key in d] *)
Definition dict_contains (d : pydict) (key : pyval) : result bool :=
  if hashable key
  then Ok (match dict_find d key with Some _ => true | None => false end)
  else Raise TypeError.

Fixpoint dict_update (d : pydict) (key value : pyval) : pydict :=
  match d with
  | [] => [(key, value)]
  | (k, v) :: t =>
      if key_eqb k key then (k, value) :: t
      else (k, v) :: dict_update t key value
  end.

(** [d[key] = value]: an entry with an equal key keeps its place and its
    key and takes the new value; otherwise the entry is added last. *)
Definition dict_setitem (d : pydict) (key value : pyval) : result pydict :=
  if hashable key then Ok (dict_update d key value) else Raise TypeError.

(** [del d[key]], for a key known to be present. *)
Fixpoint dict_remove (d : pydict) (key : pyval) : pydict :=
  match d with
  | [] => []
  | (k, v) :: t => if key_eqb k key then t else (k, v) :: dict_remove t key
  end.

(** [dict(pairs)]: the pairs are stored in order into a new dict. *)
Fixpoint dict_fill (d : pydict) (pairs : list (pyval * pyval))
  : result pydict :=
  match pairs with
  | [] => Ok d
  | (k, v) :: t => d' <- dict_setitem d k v ;; dict_fill d' t
  end.

Definition dict_of_pairs (pairs : list (pyval * pyval)) : result pydict :=
  dict_fill [] pairs.

(** [x[::2]], and [x[1::2]] as [every_second (skipn 1 x)]. *)
Fixpoint every_second {A : Type} (l : list A) : list A :=
  match l with
  | [] => []
  | a :: t => a :: match t with [] => [] | _ :: t' => every_second t' end
  end.

(** [zip(x[::2], x[1::2])] *)
Definition pair_up {A : Type} (l : list A) : list (A * A) :=
  combine (every_second l) (every_second (skipn 1 l)).

(** [[p(f) for _ in range(k)]] for a reader [p] of the socket file. *)
Fixpoint comprehension {A : Type} (k : nat)
    (p : stream -> result (A * stream)) (f : stream)
  : result (list A * stream) :=
  match k with
  | O => Ok ([], f)
  | S k' =>
      '(a, f) <- p f ;;
      '(l, f) <- comprehension k' p f ;;
      Ok (a :: l, f)
  end.

(** Lines 18-19. *)
Definition client_side : Z := 10.
Definition server_side : Z := 20.

(** ** class ProtocolHandler *)
Module ProtocolHandler.

(** A handler reads from the socket file and returns the decoded value
    with the unread input. *)
Definition handler : Type := stream -> Z -> result (pyval * stream).

(** Lines 44-49. *)
Definition handle_simple_string : handler :=
  fun socket_file system_side =>
    let '(line, socket_file) := readline socket_file in
    if system_side =? server_side
    then Ok (VBytes (rstrip is_crlf line), socket_file)
    else
      data <- decode_ascii (rstrip is_crlf line) ;;
      Ok (VStr data, socket_file).

(** Lines 51-56. *)
Definition handle_error : handler :=
  fun socket_file system_side =>
    let '(line, socket_file) := readline socket_file in
    if system_side =? server_side
    then Ok (VError (VBytes (rstrip is_crlf line)), socket_file)
    else
      data <- decode_ascii (rstrip is_crlf line) ;;
      Ok (VError (VStr data), socket_file).

(** Lines 58-59. *)
Definition handle_integer : handler :=
  fun socket_file system_side =>
    let '(line, socket_file) := readline socket_file in
    n <- py_int (rstrip is_crlf line) ;;
    Ok (VInt n, socket_file).

(** Lines 61-71. *)
Definition handle_string : handler :=
  fun socket_file system_side =>
    let '(line, socket_file) := readline socket_file in
    length <- py_int (rstrip is_crlf line) ;;
    if length =? -1 then Ok (VNone, socket_file)
    else
      let length := length + 2 in
      '(chunk, socket_file) <- read length socket_file ;;
      if system_side =? server_side
      then Ok (VBytes (drop_last2 chunk), socket_file)
      else
        data <- decode_ascii (drop_last2 chunk) ;;
        Ok (VStr data, socket_file).

(** Lines 73-77; [self_handle_request] is [self.handle_request]. *)
Definition handle_array (self_handle_request : handler) : handler :=
  fun socket_file system_side =>
    let '(line, socket_file) := readline socket_file in
    num_elements <- py_int (rstrip is_crlf line) ;;
    '(items, socket_file) <-
      comprehension (Z.to_nat num_elements)
        (fun f => self_handle_request f system_side) socket_file ;;
    Ok (VList items, socket_file).

(** Lines 79-84. *)
Definition handle_dict (self_handle_request : handler) : handler :=
  fun socket_file system_side =>
    let '(line, socket_file) := readline socket_file in
    num_items <- py_int (rstrip is_crlf line) ;;
    '(elements, socket_file) <-
      comprehension (Z.to_nat (num_items * 2))
        (fun f => self_handle_request f system_side) socket_file ;;
    d <- dict_of_pairs (pair_up elements) ;;
    Ok (VDict d, socket_file).

(** The table [self.handlers] of lines 24-30, keyed by the tag. *)
Definition handlers (self_handle_request : handler) (key : bytes)
  : option handler :=
  match key with
  | [x2b] => Some handle_simple_string
  | [x2d] => Some handle_error
  | [x3a] => Some handle_integer
  | [x24] => Some handle_string
  | [x2a] => Some (handle_array self_handle_request)
  | [x25] => Some (handle_dict self_handle_request)
  | _ => None
  end.

(** The [try] of lines 38-42: it spans the handler's call, so a
    [KeyError] from the table or from inside the handler becomes the
    [CommandError]. *)
Definition except_KeyError (attempt : result (pyval * stream))
  : result (pyval * stream) :=
  match attempt with
  | Raise KeyError => Raise (CommandError "bad request")
  | r => r
  end.

(** Lines 32-42.  [fuel] bounds the nesting of the calls; the recursion
    limit of the interpreter is not modelled. *)
Fixpoint handle_request (fuel : nat) (socket_file : stream) (system_side : Z)
  {struct fuel} : result (pyval * stream) :=
  match fuel with
  | O => OutOfFuel
  | S fuel' =>
      '(first_byte, socket_file) <- read 1 socket_file ;;
      match first_byte with
      | [] => Raise Disconnect
      | _ =>
          except_KeyError
            match handlers (handle_request fuel') first_byte with
            | Some h => h socket_file system_side
            | None => Raise KeyError
            end
      end
  end.

(** One call of [handle_request] as the program makes it: every nested
    call reads at least the tag, so a budget above the length of the input
    is never exhausted (see [decode_total]). *)
Definition decode (socket_file : stream) (system_side : Z)
  : result (pyval * stream) :=
  handle_request (S (List.length socket_file)) socket_file system_side.

(** Lines 99-122; the result is what the call appends to [buf].  The
    branch for [Error] reads the name [error], which nothing binds.  In
    the branch for a dict, [data[key]] is the value stored with [key], the
    keys of a dict being pairwise different.  The [else] of lines 121-122
    is for a value of another type (a float, a set): [pyval] has none, and
    neither the decoder nor the store makes one. *)
Fixpoint _write (data : pyval) : result bytes :=
  match data with
  | VStr s =>
      let data := encode_utf8 s in
      Ok ([x24] ++ format_d (Z.of_nat (List.length data)) ++ CRLF
            ++ data ++ CRLF)
  | VBytes data =>
      Ok ([x24] ++ format_d (Z.of_nat (List.length data)) ++ CRLF
            ++ data ++ CRLF)
  | VInt n => Ok ([x3a] ++ format_d n ++ CRLF)
  | VError _ => Raise NameError
  | VList items | VTuple items =>
      body <-
        (fix each (l : list pyval) : result bytes :=
           match l with
           | [] => Ok []
           | item :: t => x <- _write item ;; y <- each t ;; Ok (x ++ y)
           end) items ;;
      Ok ([x2a] ++ format_d (Z.of_nat (List.length items)) ++ CRLF ++ body)
  | VDict entries =>
      body <-
        (fix each (l : list (pyval * pyval)) : result bytes :=
           match l with
           | [] => Ok []
           | (key, value) :: t =>
               x <- _write key ;; y <- _write value ;; z <- each t ;;
               Ok (x ++ y ++ z)
           end) entries ;;
      Ok ([x25] ++ format_d (Z.of_nat (List.length entries)) ++ CRLF ++ body)
  | VNone => Ok ([x24; x2d; x31] ++ CRLF)
  end.

(** Lines 90-97: the value is serialized into a buffer of its own, and
    the buffer is written to the socket in one piece; when [_write]
    raises, nothing reaches the socket. *)
Definition write_response (data : pyval) : result bytes := _write data.

End ProtocolHandler.

(** ** class Server *)
Module Server.

(** A method runs on the store [self._kv] and returns the store with the
    method's outcome; the store outlives an exception. *)
Definition method : Type := pydict -> list pyval -> pydict * result pyval.

(** Lines 193-194.  A call with another number of positional arguments
    than the signature has is a [TypeError] of the call. *)
Definition get : method :=
  fun kv args =>
    match args with
    | [key] => (kv, dict_get kv key)
    | _ => (kv, Raise TypeError)
    end.

(** Lines 196-198. *)
Definition set : method :=
  fun kv args =>
    match args with
    | [key; value] =>
        match dict_setitem kv key value with
        | Ok kv' => (kv', Ok (VInt 1))
        | Raise e => (kv, Raise e)
        | OutOfFuel => (kv, OutOfFuel)
        end
    | _ => (kv, Raise TypeError)
    end.

(** Lines 200-204. *)
Definition delete : method :=
  fun kv args =>
    match args with
    | [key] =>
        match dict_contains kv key with
        | Ok true => (dict_remove kv key, Ok (VInt 1))
        | Ok false => (kv, Ok (VInt 0))
        | Raise e => (kv, Raise e)
        | OutOfFuel => (kv, OutOfFuel)
        end
    | _ => (kv, Raise TypeError)
    end.

(** Lines 206-209. *)
Definition flush : method :=
  fun kv args =>
    match args with
    | [] =>
        let kvlen := Z.of_nat (List.length kv) - 1 in
        ([], Ok (VInt kvlen))
    | _ => (kv, Raise TypeError)
    end.

(** Lines 211-212. *)
Fixpoint mget_values (kv : pydict) (keys : list pyval) : result (list pyval) :=
  match keys with
  | [] => Ok []
  | key :: t =>
      v <- dict_get kv key ;; l <- mget_values kv t ;; Ok (v :: l)
  end.

Definition mget : method :=
  fun kv keys =>
    (kv, l <- mget_values kv keys ;; Ok (VList l)).

(** The loop of lines 216-218: the store as the loop leaves it, with the
    exception that stopped it, if any. *)
Fixpoint mset_loop (kv : pydict) (data : list (pyval * pyval))
  : pydict * result unit :=
  match data with
  | [] => (kv, Ok tt)
  | (key, value) :: t =>
      match dict_setitem kv key value with
      | Ok kv' => mset_loop kv' t
      | Raise e => (kv, Raise e)
      | OutOfFuel => (kv, OutOfFuel)
      end
  end.

(** Lines 214-220. *)
Definition mset : method :=
  fun kv items =>
    let data := pair_up items in
    let '(kv, r) := mset_loop kv data in
    (kv, _ <- r ;; Ok (VInt (Z.of_nat (List.length data)))).

(** Lines 138-146. *)
Definition get_commands : list (bytes * method) :=
  [ (bytes_of "GET", get);
    (bytes_of "SET", set);
    (bytes_of "DELETE", delete);
    (bytes_of "FLUSH", flush);
    (bytes_of "MGET", mget);
    (bytes_of "MSET", mset) ].

Fixpoint lookup_command (table : list (bytes * method)) (command : bytes)
  : option method :=
  match table with
  | [] => None
  | (name, m) :: t =>
      if bytes_eqb name command then Some m else lookup_command t command
  end.

(** [str.split()] *)
Definition str_split (s : string) : list string :=
  map string_of_list_ascii
    (split_on is_space_char [] (list_ascii_of_string s)).

(** Lines 174-191.  Only a [bytes] or a [str] has a [split]; the bare
    [except] turns the failure of any other value into the
    [CommandError].  Only a [bytes] token passes line 185 and what follows
    it: a [str] has [upper] but is no key of the table and has no
    [decode]; the other values have no [upper]. *)
Definition get_response (kv : pydict) (data : pyval) : pydict * result pyval :=
  let split : result (list pyval) :=
    match data with
    | VList items => Ok items
    | VBytes b => Ok (map VBytes (bytes_split b))
    | VStr s => Ok (map VStr (str_split s))
    | _ => Raise (CommandError "Request must be list or simple string.")
    end in
  match split with
  | Raise e => (kv, Raise e)
  | OutOfFuel => (kv, OutOfFuel)
  | Ok [] => (kv, Raise (CommandError "Missing command"))
  | Ok (first :: args) =>
      match first with
      | VBytes name =>
          let command := bytes_upper name in
          match lookup_command get_commands command with
          | None =>
              (kv, text <- decode_ascii command ;;
                   Raise (CommandError ("Unrecognized command: " ++ text)))
          | Some m =>
              match decode_ascii command with
              | Ok _ => m kv args
              | Raise e => (kv, Raise e)
              | OutOfFuel => (kv, OutOfFuel)
              end
          end
      | _ => (kv, Raise AttributeError)
      end
  end.

(** Lines 161-166: the response to a decoded request. *)
Definition respond (kv : pydict) (data : pyval) : pydict * result pyval :=
  match get_response kv data with
  | (kv', Raise (CommandError message)) => (kv', Ok (VError (VStr message)))
  | r => r
  end.

(** How a session ends: the loop is left by [break] on a [Disconnect]
    (line 159), or an exception leaves [connection_handler]. *)
Inductive session_end : Type :=
| Closed
| Escaped (e : exn)
| Unfinished.

(** One pass of the loop of lines 154-168. *)
Inductive pass : Type :=
| Next (kv : pydict) (socket_file : stream) (sent : bytes)
| Stop (kv : pydict) (why : session_end).

Definition serve_request (kv : pydict) (socket_file : stream) : pass :=
  match ProtocolHandler.decode socket_file server_side with
  | Raise Disconnect => Stop kv Closed
  | Raise e => Stop kv (Escaped e)
  | OutOfFuel => Stop kv Unfinished
  | Ok (data, socket_file) =>
      match respond kv data with
      | (kv, Ok resp) =>
          match ProtocolHandler.write_response resp with
          | Ok sent => Next kv socket_file sent
          | Raise e => Stop kv (Escaped e)
          | OutOfFuel => Stop kv Unfinished
          end
      | (kv, Raise e) => Stop kv (Escaped e)
      | (kv, OutOfFuel) => Stop kv Unfinished
      end
  end.

(** A session: the store it leaves, the responses it wrote in order, and
    how it ended. *)
Record session : Type := {
  store : pydict;
  written : list bytes;
  ending : session_end
}.

Fixpoint serve (fuel : nat) (kv : pydict) (socket_file : stream) : session :=
  match fuel with
  | O => {| store := kv; written := []; ending := Unfinished |}
  | S fuel' =>
      match serve_request kv socket_file with
      | Stop kv why => {| store := kv; written := []; ending := why |}
      | Next kv socket_file sent =>
          let s := serve fuel' kv socket_file in
          {| store := store s; written := sent :: written s;
             ending := ending s |}
      end
  end.

(** Lines 148-168.  Every pass that goes on has read at least a tag, so
    the loop makes at most as many passes as the input has bytes, and one
    more to meet its end. *)
Definition connection_handler (kv : pydict) (socket_file : stream) : session :=
  serve (S (List.length socket_file)) kv socket_file.

End Server.

(** ** class Client *)
Module Client.

(** The text of the message of an [Error] that was decoded in client-side
    mode, where [handle_error] makes it a [str]. *)
Definition message_text (message : pyval) : string :=
  match message with
  | VStr s => s
  | _ => EmptyString
  end.

(** Lines 231-237.  [fh] is what the server sends from now on.  The call
    returns what it wrote to the server, and its outcome with the input it
    left unread; when [write_response] raises, nothing is written and
    nothing is read. *)
Definition execute (fh : stream) (args : list pyval)
  : list bytes * result (pyval * stream) :=
  match ProtocolHandler.write_response (VTuple args) with
  | Ok sent =>
      ([sent],
       '(resp, fh) <- ProtocolHandler.decode fh client_side ;;
       match resp with
       | VError message => Raise (CommandError (message_text message))
       | _ => Ok (resp, fh)
       end)
  | Raise e => ([], Raise e)
  | OutOfFuel => ([], OutOfFuel)
  end.

(** Lines 239-255. *)
Definition get (fh : stream) (key : pyval) :=
  execute fh [VStr "GET"; key].

Definition set (fh : stream) (key value : pyval) :=
  execute fh [VStr "SET"; key; value].

Definition delete (fh : stream) (key : pyval) :=
  execute fh [VStr "DELETE"; key].

Definition flush (fh : stream) :=
  execute fh [VStr "FLUSH"].

Definition mget (fh : stream) (keys : list pyval) :=
  execute fh (VStr "MGET" :: keys).

Definition mset (fh : stream) (items : list pyval) :=
  execute fh (VStr "MSET" :: items).

End Client.

(** ** Vocabulary of the statements *)

Import ProtocolHandler Server.

(** The names of the command table. *)
Definition command_names : list bytes := map fst Server.get_commands.

(** The methods of lines 193-209 take a fixed number of arguments;
    [mget] and [mset] take any. *)
Definition fixed_arity : list (bytes * nat) :=
  [ (bytes_of "GET", 1%nat);
    (bytes_of "SET", 2%nat);
    (bytes_of "DELETE", 1%nat);
    (bytes_of "FLUSH", 0%nat) ].

(** The first token [name] of a request, with the arguments after it: the
    request is a list, or a line that [split] cuts into tokens. *)
Definition request_of (data : pyval) (name : bytes) (args : list pyval)
  : Prop :=
  data = VList (VBytes name :: args)
  \/ exists line rest,
       data = VBytes line
       /\ bytes_split line = name :: rest
       /\ args = map VBytes rest.

(** The pair of the arguments [2i] and [2i+1] of a call. *)
Definition nth_pair (items : list pyval) (i : nat) : pyval * pyval :=
  (nth (2 * i) items VNone, nth (2 * i + 1) items VNone).

(** Storing pairs one after the other, for hashable keys. *)
Definition store_pairs (kv : pydict) (pairs : list (pyval * pyval)) : pydict :=
  fold_left (fun d p => dict_update d (fst p) (snd p)) pairs kv.

(** A reader leaves no more input than it found. *)
Definition shrinks (p : stream -> result (pyval * stream)) : Prop :=
  forall f v f', p f = Ok (v, f') -> (List.length f' <= List.length f)%nat.

(** What a handler of a value without elements can do: return with no more
    input left than it found, or raise one of two built-in exceptions. *)
Definition scalar_outcome (f : stream) (r : result (pyval * stream)) : Prop :=
  (exists v f', r = Ok (v, f') /\ (List.length f' <= List.length f)%nat)
  \/ r = Raise ValueError
  \/ r = Raise UnicodeDecodeError.

(** The tags of the values without elements. *)
Definition is_scalar_tag (c : byte) : bool :=
  match c with
  | x2b | x2d | x3a | x24 => true
  | _ => false
  end.

(** The value of a digit string read from the left, after digits worth
    [acc]. *)
Fixpoint uint_value (acc : Z) (d : Decimal.uint) : Z :=
  match d with
  | Decimal.Nil => acc
  | Decimal.D0 t => uint_value (10 * acc + 0) t
  | Decimal.D1 t => uint_value (10 * acc + 1) t
  | Decimal.D2 t => uint_value (10 * acc + 2) t
  | Decimal.D3 t => uint_value (10 * acc + 3) t
  | Decimal.D4 t => uint_value (10 * acc + 4) t
  | Decimal.D5 t => uint_value (10 * acc + 5) t
  | Decimal.D6 t => uint_value (10 * acc + 6) t
  | Decimal.D7 t => uint_value (10 * acc + 7) t
  | Decimal.D8 t => uint_value (10 * acc + 8) t
  | Decimal.D9 t => uint_value (10 * acc + 9) t
  end.

(** Induction on a value, with the hypothesis for every item of a list or
    a tuple and for every key and value of a dict. *)
Section PyvalInduction.

Variable P : pyval -> Prop.

Hypothesis HNone : P VNone.
Hypothesis HInt : forall n, P (VInt n).
Hypothesis HBytes : forall b, P (VBytes b).
Hypothesis HStr : forall s, P (VStr s).
Hypothesis HError : forall message, P message -> P (VError message).
Hypothesis HList : forall items, Forall P items -> P (VList items).
Hypothesis HTuple : forall items, Forall P items -> P (VTuple items).
Hypothesis HDict :
  forall entries,
    Forall (fun e => P (fst e) /\ P (snd e)) entries -> P (VDict entries).

Fixpoint pyval_induction (v : pyval) : P v :=
  match v with
  | VNone => HNone
  | VInt n => HInt n
  | VBytes b => HBytes b
  | VStr s => HStr s
  | VError message => HError message (pyval_induction message)
  | VList items =>
      HList items
        ((fix all (l : list pyval) : Forall P l :=
            match l with
            | [] => Forall_nil P
            | a :: t => Forall_cons a (pyval_induction a) (all t)
            end) items)
  | VTuple items =>
      HTuple items
        ((fix all (l : list pyval) : Forall P l :=
            match l with
            | [] => Forall_nil P
            | a :: t => Forall_cons a (pyval_induction a) (all t)
            end) items)
  | VDict entries =>
      HDict entries
        ((fix all (l : list (pyval * pyval))
            : Forall (fun e => P (fst e) /\ P (snd e)) l :=
            match l with
            | [] => Forall_nil _
            | (k, x) :: t =>
                Forall_cons (k, x)
                  (conj (pyval_induction k) (pyval_induction x)) (all t)
            end) entries)
  end.

End PyvalInduction.

(** A tuple and an [Error] with the same items, made one. *)
Fixpoint as_tuple (v : pyval) : pyval :=
  match v with
  | VError message => VTuple [as_tuple message]
  | VTuple items => VTuple (map as_tuple items)
  | _ => v
  end.

(** No entry has a key equal to the key of a later entry. *)
Fixpoint unique_keys (d : pydict) : bool :=
  match d with
  | [] => true
  | (k, _) :: t =>
      forallb (fun e => negb (key_eqb k (fst e))) t && unique_keys t
  end.



(** The loops of lines 111-112 and 115-117. *)
Fixpoint write_items (items : list pyval) : result bytes :=
  match items with
  | [] => Ok []
  | item :: t => x <- _write item ;; y <- write_items t ;; Ok (x ++ y)
  end.

Fixpoint write_entries (entries : list (pyval * pyval)) : result bytes :=
  match entries with
  | [] => Ok []
  | (key, value) :: t =>
      x <- _write key ;; y <- _write value ;; z <- write_entries t ;;
      Ok (x ++ y ++ z)
  end.



(** The invariant of the store, as of every Python dict: the keys have a
    hash and are pairwise different. *)
Definition dict_ok (d : pydict) : bool :=
  forallb (fun e => hashable (fst e)) d && unique_keys d.

(** What [d.get(key)] returns. *)
Definition value_of (d : pydict) (key : pyval) : pyval :=
  match dict_find d key with
  | Some v => v
  | None => VNone
  end.

(** A request as [Client.execute] sends it and the decoder returns it: the
    list of the command name and the arguments. *)
Definition request (name : string) (args : list pyval) : pyval :=
  VList (VBytes (bytes_of name) :: args).

(** The exceptions that the statements of the decoder raise. *)
Definition decoder_exn (e : exn) : Prop :=
  e = Disconnect \/ e = CommandError "bad request" \/ e = ValueError
  \/ e = TypeError \/ e = UnicodeDecodeError.

(** A reader returns a suffix of its input. *)
Definition reads_prefix {A : Type} (p : stream -> result (A * stream)) : Prop :=
  forall f v f', p f = Ok (v, f') -> exists consumed, f = consumed ++ f'.

(** An [Error] somewhere in a value: the value itself, an item of a list
    or tuple, a key or a value of a dict, at any depth. *)
Fixpoint has_error (v : pyval) : bool :=
  match v with
  | VError _ => true
  | VList items | VTuple items => existsb has_error items
  | VDict entries =>
      existsb (fun e => has_error (fst e) || has_error (snd e)) entries
  | _ => false
  end.

(** The least size that the argument conversion of the reader accepts,
    the [-2^63] of a 64-bit [Py_ssize_t]; a smaller one is refused before
    its sign is looked at. *)
Definition PY_SSIZE_T_MIN : Z := -9223372036854775808.

(** The first byte of a message the encoder can produce. *)
Definition written_tag (sent : bytes) : Prop :=
  exists c t, sent = c :: t /\ In c [x24; x3a; x2a; x25].



(** The exceptions that the statements of a session raise and do not
    catch. *)
Definition session_exn (e : exn) : Prop :=
  e = CommandError "bad request" \/ e = ValueError \/ e = TypeError
  \/ e = AttributeError \/ e = UnicodeDecodeError \/ e = NameError.

(** A value is written, and what is written is read back in the mode
    [side] as [v'], whatever follows it on the wire. *)
Definition roundtrips_in (side : Z) (v v' : pyval) : Prop :=
  exists wire,
    _write v = Ok wire
    /\ forall rest, decode (wire ++ rest) side = Ok (v', rest).

(** The values made of ASCII bytes, ASCII text, integers, [None], lists
    and tuples. *)
Fixpoint textual (v : pyval) : bool :=
  match v with
  | VNone | VInt _ => true
  | VBytes b => forallb is_ascii b
  | VStr s => forallb is_ascii (encode_utf8 s)
  | VList items | VTuple items => forallb textual items
  | VError _ | VDict _ => false
  end.

(** What a client decodes from what was written for a textual value:
    bytes have become text, and a tuple a list. *)
Fixpoint client_image (v : pyval) : pyval :=
  match v with
  | VBytes b => VStr (string_of_list_byte b)
  | VList items | VTuple items => VList (map client_image items)
  | _ => v
  end.

(** * Properties *)

(** ** Bytes and the command table *)

Lemma bytes_eqb_eq (x y : bytes) : bytes_eqb x y = true <-> x = y.
Proof.
  unfold bytes_eqb. destruct (list_eq_dec byte_eq_dec x y); split;
    congruence.
Qed.

Lemma is_ascii_upper_byte (c : byte) : is_ascii (upper_byte c) = is_ascii c.
Proof. destruct c; reflexivity. Qed.

Lemma is_ascii_bytes_upper (l : bytes) :
  forallb is_ascii (bytes_upper l) = forallb is_ascii l.
Proof.
  induction l as [|c l IH]; simpl; [reflexivity|].
  now rewrite is_ascii_upper_byte, IH.
Qed.

Lemma lookup_command_none table command :
  ~ In command (map fst table) -> lookup_command table command = None.
Proof.
  induction table as [|[name m] table IH]; simpl; intros H; [reflexivity|].
  destruct (bytes_eqb name command) eqn:E.
  - apply bytes_eqb_eq in E. tauto.
  - apply IH. tauto.
Qed.

Lemma request_of_split data name args :
  request_of data name args ->
  match data with
  | VList items => items = VBytes name :: args
  | VBytes line => map VBytes (bytes_split line) = VBytes name :: args
  | _ => False
  end.
Proof.
  intros [-> | (line & rest & -> & Hs & ->)]; [reflexivity|].
  now rewrite Hs.
Qed.

(** The dispatcher on a request that has a first token in [bytes]. *)
Lemma get_response_token kv data name args :
  request_of data name args ->
  get_response kv data =
    match lookup_command get_commands (bytes_upper name) with
    | None =>
        (kv, text <- decode_ascii (bytes_upper name) ;;
             Raise (CommandError ("Unrecognized command: " ++ text)))
    | Some m =>
        match decode_ascii (bytes_upper name) with
        | Ok _ => m kv args
        | Raise e => (kv, Raise e)
        | OutOfFuel => (kv, OutOfFuel)
        end
    end.
Proof.
  intros H. apply request_of_split in H.
  destruct data; try contradiction; unfold get_response; rewrite H;
    reflexivity.
Qed.

(** ** The store *)

(** C3: on every store, [flush] leaves the store empty and returns the
    number of entries it had, minus one; so does the request FLUSH through
    the dispatcher. *)
Theorem flush_returns_count_minus_one (kv : pydict) :
  flush kv [] = ([], Ok (VInt (Z.of_nat (List.length kv) - 1)))
  /\ get_response kv (VList [VBytes (bytes_of "FLUSH")])
     = ([], Ok (VInt (Z.of_nat (List.length kv) - 1)))
  /\ forall key, hashable key = true ->
       dict_get (fst (flush kv [])) key = Ok VNone.
Proof.
  split; [reflexivity|]. split; [reflexivity|].
  intros key Hk. simpl. unfold dict_get. now rewrite Hk.
Qed.

Lemma flush_returns_count_minus_one_witness :
  dict_get (fst (flush [(VBytes (bytes_of "k"), VInt 1)] []))
    (VBytes (bytes_of "k"))
  = Ok VNone.
Proof.
  apply (proj2 (proj2 (flush_returns_count_minus_one
                         [(VBytes (bytes_of "k"), VInt 1)]))).
  reflexivity.
Defined.

(** On the empty store the count that [flush] returns is negative. *)
Example flush_empty_store : flush [] [] = ([], Ok (VInt (-1))).
Proof. reflexivity. Qed.

Lemma pair_up_cons2 {A : Type} (a b : A) (t : list A) :
  pair_up (a :: b :: t) = (a, b) :: pair_up t.
Proof. unfold pair_up. destruct t; reflexivity. Qed.

Lemma nth_pair_cons2 (a b : pyval) (t : list pyval) (i : nat) :
  nth_pair (a :: b :: t) (S i) = nth_pair t i.
Proof.
  unfold nth_pair.
  replace (2 * S i)%nat with (S (S (2 * i))) by lia.
  replace (S (S (2 * i)) + 1)%nat with (S (S (2 * i + 1))) by lia.
  reflexivity.
Qed.

(** [zip(items[::2], items[1::2])] is the list of the pairs of arguments
    [2i] and [2i+1], for [i] below half the length. *)
Lemma pair_up_nth (k : nat) : forall items : list pyval,
  List.length items = (2 * k)%nat \/ List.length items = (2 * k + 1)%nat ->
  pair_up items = map (nth_pair items) (seq 0 k).
Proof.
  induction k as [|k IH]; intros items H.
  - destruct items as [|a [|b t]]; simpl in H; try reflexivity; lia.
  - destruct items as [|a [|b t]]; simpl in H; try lia.
    rewrite pair_up_cons2. simpl seq. simpl map at 1.
    change (nth_pair (a :: b :: t) 0%nat) with (a, b). f_equal.
    rewrite <- seq_shift, map_map.
    rewrite IH by lia.
    apply map_ext. intros i. now rewrite nth_pair_cons2.
Qed.

Lemma pair_up_drops_odd_last (k : nat) : forall (args : list pyval) (x : pyval),
  List.length args = (2 * k)%nat -> pair_up (args ++ [x]) = pair_up args.
Proof.
  induction k as [|k IH]; intros args x H.
  - destruct args; [reflexivity | simpl in H; lia].
  - destruct args as [|a [|b t]]; simpl in H; try lia.
    simpl app. rewrite !pair_up_cons2. f_equal. apply IH. lia.
Qed.

Lemma mset_loop_hashable (pairs : list (pyval * pyval)) : forall kv,
  Forall (fun p => hashable (fst p) = true) pairs ->
  mset_loop kv pairs = (store_pairs kv pairs, Ok tt).
Proof.
  induction pairs as [|[key value] pairs IH]; intros kv H; [reflexivity|].
  inversion H as [|p l Hk Hl]; subst. simpl in Hk.
  simpl. unfold dict_setitem. rewrite Hk. now apply IH.
Qed.

Lemma odd_half (n k : nat) : n = (2 * k + 1)%nat -> (n / 2 = k)%nat.
Proof.
  intros ->. replace (2 * k + 1)%nat with (1 + k * 2)%nat by lia.
  now rewrite Nat.div_add by lia.
Qed.

(** C9, as the code has it: a call of [mset] with an odd number [n] of
    arguments, the keys among them hashable, raises nothing: it stores the
    pairs of arguments [2i], [2i+1] for [i] below [n/2] from left to right,
    returns [n/2], and does what the call without the last argument
    does. *)
Theorem mset_odd_ignores_last (kv : pydict) (items : list pyval) :
  Nat.Odd (List.length items) ->
  (forall i, (i < List.length items / 2)%nat ->
             hashable (nth (2 * i) items VNone) = true) ->
  mset kv items
  = (store_pairs kv (map (nth_pair items) (seq 0 (List.length items / 2))),
     Ok (VInt (Z.of_nat (List.length items / 2))))
  /\ mset kv items = mset kv (removelast items).
Proof.
  intros [k Hk] Hkeys. rewrite (odd_half _ _ Hk) in *.
  assert (Hp : pair_up items = map (nth_pair items) (seq 0 k))
    by (apply pair_up_nth; now right).
  split.
  - unfold mset. rewrite Hp, mset_loop_hashable.
    + simpl. now rewrite length_map, length_seq.
    + apply Forall_forall. intros p Hin. apply in_map_iff in Hin.
      destruct Hin as (i & <- & Hi). apply in_seq in Hi.
      unfold nth_pair. simpl fst. apply Hkeys. lia.
  - assert (Hne : items <> []) by (intros ->; simpl in Hk; lia).
    destruct (exists_last Hne) as (args & x & ->).
    rewrite removelast_last. rewrite length_app in Hk. simpl in Hk.
    unfold mset. rewrite (pair_up_drops_odd_last k) by lia. reflexivity.
Qed.

Lemma mset_odd_ignores_last_witness :
  mset [] [VBytes (bytes_of "a"); VInt 1; VBytes (bytes_of "b")]
  = ([(VBytes (bytes_of "a"), VInt 1)], Ok (VInt 1)).
Proof.
  apply (mset_odd_ignores_last []
           [VBytes (bytes_of "a"); VInt 1; VBytes (bytes_of "b")]).
  - exists 1%nat. reflexivity.
  - intros i Hi. simpl in Hi.
    destruct i as [|i]; [reflexivity|]. simpl in Hi. lia.
Defined.

(** C9 as the claim states it, for every odd-length argument list, fails
    where a key has no hash: MSET with the three arguments [[]], 1 and
    [b'b'], as the decoder delivers them from the wire, raises [TypeError]
    and stores nothing. *)
Lemma mset_odd_with_list_key_raises :
  Nat.Odd (List.length [VList []; VInt 1; VBytes (bytes_of "b")])
  /\ mset [] [VList []; VInt 1; VBytes (bytes_of "b")] = ([], Raise TypeError)
  /\ decode (bytes_of "*4" ++ CRLF ++ bytes_of "$4" ++ CRLF
               ++ bytes_of "MSET" ++ CRLF ++ bytes_of "*0" ++ CRLF
               ++ bytes_of ":1" ++ CRLF ++ bytes_of "$1" ++ CRLF
               ++ bytes_of "b" ++ CRLF) server_side
     = Ok (VList [VBytes (bytes_of "MSET"); VList []; VInt 1;
                  VBytes (bytes_of "b")], [])
  /\ get_response []
       (VList [VBytes (bytes_of "MSET"); VList []; VInt 1;
               VBytes (bytes_of "b")])
     = ([], Raise TypeError).
Proof.
  split; [exists 1%nat; reflexivity|]. repeat split; reflexivity.
Qed.

(** ** The dispatcher *)

(** C7, as the code has it: a request whose first token is ASCII and, in
    upper case, is none of the six command names fails with the
    [CommandError] whose message is "Unrecognized command: " followed by the
    token in upper case; the store is left as it was, and the response of
    the connection loop is the [Error] with that message. *)
Theorem unrecognized_command_message
    (kv : pydict) (data : pyval) (name : bytes) (args : list pyval) :
  request_of data name args ->
  forallb is_ascii name = true ->
  ~ In (bytes_upper name) command_names ->
  let message :=
    ("Unrecognized command: " ++ string_of_list_byte (bytes_upper name))%string
  in
  get_response kv data = (kv, Raise (CommandError message))
  /\ respond kv data = (kv, Ok (VError (VStr message))).
Proof.
  intros Hreq Hascii Hnot message.
  assert (H : get_response kv data = (kv, Raise (CommandError message))).
  { rewrite (get_response_token kv data name args Hreq).
    rewrite (lookup_command_none _ _ Hnot).
    unfold decode_ascii. rewrite is_ascii_bytes_upper, Hascii. reflexivity. }
  split; [exact H|]. unfold respond. now rewrite H.
Qed.

Lemma unrecognized_command_message_witness :
  get_response [] (VBytes (bytes_of "foo 1"))
  = ([], Raise (CommandError "Unrecognized command: FOO")).
Proof.
  apply (unrecognized_command_message [] (VBytes (bytes_of "foo 1"))
           (bytes_of "foo") [VBytes (bytes_of "1")]).
  - right. exists (bytes_of "foo 1"), [bytes_of "1"]. repeat split.
  - reflexivity.
  - vm_compute. intuition discriminate.
Defined.

(** The message of C7 as the claim spells it is not the one the code
    raises for the command FOO. *)
Lemma unrecognized_command_not_lowercase :
  get_response [] (VList [VBytes (bytes_of "FOO")])
  = ([], Raise (CommandError "Unrecognized command: FOO"))
  /\ get_response [] (VList [VBytes (bytes_of "FOO")])
     <> ([], Raise (CommandError "unrecognized command: FOO")).
Proof. split; [reflexivity | discriminate]. Qed.

(** C8, as the code has it: a command of fixed arity called with another
    number of arguments raises the [TypeError] of the call; neither the
    dispatcher nor the connection loop turns it into a [CommandError] or a
    response, and it ends the session. *)
Theorem wrong_arity_escapes
    (kv : pydict) (data : pyval) (name : bytes) (args : list pyval) (n : nat) :
  request_of data name args ->
  In (bytes_upper name, n) fixed_arity ->
  List.length args <> n ->
  get_response kv data = (kv, Raise TypeError)
  /\ respond kv data = (kv, Raise TypeError)
  /\ forall socket_file rest,
       decode socket_file server_side = Ok (data, rest) ->
       serve_request kv socket_file = Stop kv (Escaped TypeError).
Proof.
  intros Hreq Hin Hlen.
  assert (H : get_response kv data = (kv, Raise TypeError)).
  { rewrite (get_response_token kv data name args Hreq).
    simpl in Hin.
    destruct Hin as [E | [E | [E | [E | []]]]]; inversion E as [[Hn Hk]];
      subst n; clear E Hn;
      destruct args as [|a [|b [|c args]]]; simpl in Hlen;
      try reflexivity; congruence. }
  assert (H' : respond kv data = (kv, Raise TypeError))
    by (unfold respond; now rewrite H).
  repeat split; trivial.
  intros socket_file rest Hd. unfold serve_request. now rewrite Hd, H'.
Qed.

Lemma wrong_arity_escapes_witness :
  get_response [] (VList [VBytes (bytes_of "get")]) = ([], Raise TypeError).
Proof.
  apply (wrong_arity_escapes [] (VList [VBytes (bytes_of "get")])
           (bytes_of "get") [] 1%nat).
  - left. reflexivity.
  - left. reflexivity.
  - simpl. lia.
Defined.

(** GET without a key: what is raised is no [CommandError], and the session
    that sends it gets no response and ends on the [TypeError]. *)
Lemma get_without_key_is_no_command_error :
  (forall kv message,
     get_response [] (VList [VBytes (bytes_of "GET")])
     <> (kv, Raise (CommandError message)))
  /\ connection_handler []
       ([x2a; x31] ++ CRLF ++ [x24; x33] ++ CRLF ++ bytes_of "GET" ++ CRLF)
     = {| store := []; written := []; ending := Escaped TypeError |}.
Proof. split; [intros kv message; discriminate | reflexivity]. Qed.

(** ** The encoder *)

(** C2 fails on the code: the branch of [_write] for an [Error] raises
    [NameError], whatever the message, and nothing is written. *)
Theorem write_error_raises_NameError (message : pyval) :
  _write (VError message) = Raise NameError
  /\ write_response (VError message) = Raise NameError.
Proof. split; reflexivity. Qed.

(** ** The connection loop *)

(** C1 fails on the code, in both of its cases.  A [CommandError] of the
    dispatcher is caught and made the [Error] with its message, but the
    writer raises [NameError] on every [Error]: nothing is sent and the
    session ends.  A [CommandError] of the decoder is raised inside the
    [try] that catches [Disconnect] alone: it leaves the handler, which has
    sent nothing, and the session ends.  A [Disconnect] closes the
    session. *)
Theorem command_error_handling (kv : pydict) (socket_file : stream) :
  (forall data rest kv' message,
     decode socket_file server_side = Ok (data, rest) ->
     get_response kv data = (kv', Raise (CommandError message)) ->
     respond kv data = (kv', Ok (VError (VStr message)))
     /\ serve_request kv socket_file = Stop kv' (Escaped NameError)
     /\ connection_handler kv socket_file
        = {| store := kv'; written := []; ending := Escaped NameError |})
  /\ (forall message,
        decode socket_file server_side = Raise (CommandError message) ->
        serve_request kv socket_file = Stop kv (Escaped (CommandError message))
        /\ connection_handler kv socket_file
           = {| store := kv; written := [];
                ending := Escaped (CommandError message) |})
  /\ (decode socket_file server_side = Raise Disconnect ->
      connection_handler kv socket_file
      = {| store := kv; written := []; ending := Closed |}).
Proof.
  split; [|split].
  - intros data rest kv' message Hd Hg.
    assert (Hr : respond kv data = (kv', Ok (VError (VStr message))))
      by (unfold respond; now rewrite Hg).
    assert (Hs : serve_request kv socket_file = Stop kv' (Escaped NameError))
      by (unfold serve_request; now rewrite Hd, Hr).
    split; [exact Hr|]. split; [exact Hs|].
    unfold connection_handler. simpl. now rewrite Hs.
  - intros message Hd.
    assert (Hs : serve_request kv socket_file
                 = Stop kv (Escaped (CommandError message)))
      by (unfold serve_request; now rewrite Hd).
    split; [exact Hs|]. unfold connection_handler. simpl. now rewrite Hs.
  - intros Hd. unfold connection_handler. simpl.
    unfold serve_request. now rewrite Hd.
Qed.

(** The request FOO, whose [CommandError] the dispatcher raises, and the
    request that starts with [!], whose [CommandError] the decoder raises:
    neither gets a response, and each ends its session. *)
Lemma command_error_handling_witness :
  connection_handler []
    (bytes_of "*1" ++ CRLF ++ bytes_of "$3" ++ CRLF ++ bytes_of "FOO" ++ CRLF)
  = {| store := []; written := []; ending := Escaped NameError |}
  /\ connection_handler [] [x21]
     = {| store := []; written := [];
          ending := Escaped (CommandError "bad request") |}.
Proof.
  split.
  - destruct (proj1 (command_error_handling []
                       (bytes_of "*1" ++ CRLF ++ bytes_of "$3" ++ CRLF
                          ++ bytes_of "FOO" ++ CRLF))
                (VList [VBytes (bytes_of "FOO")]) [] []
                "Unrecognized command: FOO"%string)
      as (_ & _ & H); [reflexivity | reflexivity | exact H].
  - destruct (proj1 (proj2 (command_error_handling [] [x21]))
                "bad request"%string)
      as (_ & H); [reflexivity | exact H].
Defined.

(** ** The decoder: reads, budget and exceptions *)

Lemma readline_split (f : stream) :
  f = fst (readline f) ++ snd (readline f).
Proof.
  induction f as [|c t IH]; [reflexivity|].
  simpl. destruct (readline t) as [l r]. simpl in IH.
  destruct c; simpl; congruence.
Qed.

Lemma readline_length (f line rest : stream) :
  readline f = (line, rest) -> (List.length rest <= List.length f)%nat.
Proof.
  intros H. rewrite (readline_split f), H. simpl.
  rewrite length_app. lia.
Qed.

Lemma read_length (size : Z) (f chunk rest : stream) :
  read size f = Ok (chunk, rest) -> (List.length rest <= List.length f)%nat.
Proof.
  unfold read. destruct (size <? -1); [discriminate|].
  destruct (size =? -1); intros H; inversion H; subst; simpl; [lia|].
  rewrite length_skipn. lia.
Qed.

Lemma read_outcome (size : Z) (f : stream) :
  (exists x, read size f = Ok x) \/ read size f = Raise ValueError.
Proof.
  unfold read. destruct (size <? -1); [now right|].
  destruct (size =? -1); left; eauto.
Qed.

Lemma py_int_outcome (x : bytes) :
  (exists n, py_int x = Ok n) \/ py_int x = Raise ValueError.
Proof.
  unfold py_int.
  destruct (match lstrip is_space x with
            | x2b :: t => (false, t)
            | x2d :: t => (true, t)
            | _ => (false, lstrip is_space x)
            end) as [negative s].
  destruct s as [|c t]; [now right|].
  destruct (digit_val c); [|now right].
  destruct (int_digits z t) as [[n rest]|]; [|now right].
  destruct (forallb is_space rest); [left; eauto | now right].
Qed.

Lemma decode_ascii_outcome (l : bytes) :
  (exists s, decode_ascii l = Ok s)
  \/ decode_ascii l = Raise UnicodeDecodeError.
Proof.
  unfold decode_ascii. destruct (forallb is_ascii l); [left; eauto | now right].
Qed.

Lemma dict_fill_outcome (pairs : list (pyval * pyval)) : forall d,
  (exists d', dict_fill d pairs = Ok d') \/ dict_fill d pairs = Raise TypeError.
Proof.
  induction pairs as [|[k v] t IH]; intros d; simpl; [left; eauto|].
  unfold dict_setitem. destruct (hashable k); simpl; [apply IH | now right].
Qed.

Ltac outcome_of H :=
  let x := fresh "x" in
  let E := fresh "E" in
  destruct H as [[x E] | E]; rewrite E; simpl;
  [ | unfold scalar_outcome; tauto ].

Lemma handle_simple_string_outcome f side :
  scalar_outcome f (handle_simple_string f side).
Proof.
  unfold handle_simple_string.
  destruct (readline f) as [line rest] eqn:Hl. apply readline_length in Hl.
  destruct (side =? server_side); [left; eauto|].
  outcome_of (decode_ascii_outcome (rstrip is_crlf line)). left; eauto.
Qed.

Lemma handle_error_outcome f side : scalar_outcome f (handle_error f side).
Proof.
  unfold handle_error.
  destruct (readline f) as [line rest] eqn:Hl. apply readline_length in Hl.
  destruct (side =? server_side); [left; eauto|].
  outcome_of (decode_ascii_outcome (rstrip is_crlf line)). left; eauto.
Qed.

Lemma handle_integer_outcome f side : scalar_outcome f (handle_integer f side).
Proof.
  unfold handle_integer.
  destruct (readline f) as [line rest] eqn:Hl. apply readline_length in Hl.
  outcome_of (py_int_outcome (rstrip is_crlf line)). left; eauto.
Qed.

Lemma handle_string_outcome f side : scalar_outcome f (handle_string f side).
Proof.
  unfold handle_string.
  destruct (readline f) as [line rest] eqn:Hl. apply readline_length in Hl.
  outcome_of (py_int_outcome (rstrip is_crlf line)).
  destruct (x =? -1); [left; eauto|].
  destruct (read (x + 2) rest) as [[chunk rest']| |] eqn:Hr.
  - apply read_length in Hr. simpl.
    destruct (side =? server_side); [left; do 2 eexists; split; eauto; lia|].
    outcome_of (decode_ascii_outcome (drop_last2 chunk)).
    left; do 2 eexists; split; eauto; lia.
  - destruct (read_outcome (x + 2) rest) as [[y E'] | E']; rewrite E' in Hr;
      inversion Hr. right. now left.
  - destruct (read_outcome (x + 2) rest) as [[y E'] | E']; rewrite E' in Hr;
      discriminate.
Qed.

(** The comprehension of a reader. *)
Lemma comprehension_shrinks (p : stream -> result (pyval * stream)) (k : nat) :
  shrinks p ->
  forall f l f', comprehension k p f = Ok (l, f') ->
                 (List.length f' <= List.length f)%nat.
Proof.
  intros Hp. induction k as [|k IH]; intros f l f' H; simpl in H.
  - inversion H; subst. lia.
  - destruct (p f) as [[a f1]| |] eqn:E1; simpl in H; try discriminate.
    destruct (comprehension k p f1) as [[l1 f2]| |] eqn:E2; simpl in H;
      try discriminate.
    inversion H; subst. apply Hp in E1. apply IH in E2. lia.
Qed.

Lemma comprehension_raise (p : stream -> result (pyval * stream)) (k : nat) :
  forall f e, comprehension k p f = Raise e -> exists f0, p f0 = Raise e.
Proof.
  induction k as [|k IH]; intros f e H; simpl in H; [discriminate|].
  destruct (p f) as [[a f1]| |] eqn:E1; simpl in H; try discriminate.
  - destruct (comprehension k p f1) as [[l1 f2]| |] eqn:E2; simpl in H;
      try discriminate.
    inversion H; subst. eauto.
  - inversion H; subst. eauto.
Qed.

Lemma comprehension_fuel (p : stream -> result (pyval * stream)) (k : nat) :
  shrinks p ->
  forall f, comprehension k p f = OutOfFuel ->
    exists f0, (List.length f0 <= List.length f)%nat /\ p f0 = OutOfFuel.
Proof.
  intros Hp. induction k as [|k IH]; intros f H; simpl in H; [discriminate|].
  destruct (p f) as [[a f1]| |] eqn:E1; simpl in H; try discriminate.
  - destruct (comprehension k p f1) as [[l1 f2]| |] eqn:E2; simpl in H;
      try discriminate.
    apply Hp in E1. destruct (IH _ E2) as (f0 & Hle & H0).
    exists f0. split; [lia | exact H0].
  - exists f. split; [lia | exact E1].
Qed.

Lemma comprehension_ext (p q : stream -> result (pyval * stream)) (k : nat) :
  shrinks p ->
  forall f,
    (forall f0, (List.length f0 <= List.length f)%nat -> p f0 = q f0) ->
    comprehension k p f = comprehension k q f.
Proof.
  intros Hp. induction k as [|k IH]; intros f H; simpl; [reflexivity|].
  rewrite <- (H f) by lia.
  destruct (p f) as [[a f1]| |] eqn:E1; simpl; try reflexivity.
  apply Hp in E1. rewrite (IH f1); [reflexivity|].
  intros f0 H0. apply H. lia.
Qed.

Lemma handlers_cases (self : handler) (c : byte) :
  match handlers self [c] with
  | Some h =>
      (is_scalar_tag c = true /\ forall f side, scalar_outcome f (h f side))
      \/ (c = x2a /\ h = handle_array self)
      \/ (c = x25 /\ h = handle_dict self)
  | None => is_scalar_tag c = false /\ c <> x2a /\ c <> x25
  end.
Proof.
  destruct c; simpl;
    try (repeat split; discriminate);
    try (right; left; split; reflexivity);
    try (right; right; split; reflexivity);
    left; (split; [reflexivity|]).
  - apply handle_string_outcome.
  - apply handle_simple_string_outcome.
  - apply handle_error_outcome.
  - apply handle_integer_outcome.
Qed.

Lemma handle_request_cons (fuel : nat) (c : byte) (t : stream) (side : Z) :
  handle_request (S fuel) (c :: t) side
  = except_KeyError
      match handlers (handle_request fuel) [c] with
      | Some h => h t side
      | None => Raise KeyError
      end.
Proof. reflexivity. Qed.

Lemma handle_request_nil (fuel : nat) (side : Z) :
  handle_request (S fuel) [] side = Raise Disconnect.
Proof. reflexivity. Qed.

Lemma except_KeyError_scalar f r :
  scalar_outcome f r -> except_KeyError r = r.
Proof.
  intros [(v & f' & -> & _) | [-> | ->]]; reflexivity.
Qed.

Lemma except_KeyError_Ok r x : except_KeyError r = Ok x -> r = Ok x.
Proof.
  destruct r as [a|e|]; simpl; try congruence. destruct e; discriminate.
Qed.

Lemma except_KeyError_fuel r : except_KeyError r = OutOfFuel -> r = OutOfFuel.
Proof.
  destruct r as [a|e|]; simpl; try congruence. destruct e; discriminate.
Qed.

(** The handlers of arrays and maps, over any reader of the elements. *)
Section Aggregates.

Variable self : handler.
Variable side : Z.

Local Abbreviation element := (fun f : stream => self f side).

Lemma handle_array_Ok f v f' :
  handle_array self f side = Ok (v, f') ->
  exists n items,
    py_int (rstrip is_crlf (fst (readline f))) = Ok n
    /\ comprehension (Z.to_nat n) element (snd (readline f)) = Ok (items, f')
    /\ v = VList items.
Proof.
  unfold handle_array. destruct (readline f) as [line rest]. simpl.
  destruct (py_int (rstrip is_crlf line)) as [n| |]; simpl; try discriminate.
  destruct (comprehension (Z.to_nat n) element rest) as [[items f1]| |]
    eqn:Hc; simpl; try discriminate.
  intros H. inversion H; subst. exists n, items. auto.
Qed.

Lemma handle_dict_Ok f v f' :
  handle_dict self f side = Ok (v, f') ->
  exists n elements d,
    py_int (rstrip is_crlf (fst (readline f))) = Ok n
    /\ comprehension (Z.to_nat (n * 2)) element (snd (readline f))
       = Ok (elements, f')
    /\ dict_of_pairs (pair_up elements) = Ok d
    /\ v = VDict d.
Proof.
  unfold handle_dict. destruct (readline f) as [line rest]. simpl.
  destruct (py_int (rstrip is_crlf line)) as [n| |]; simpl; try discriminate.
  destruct (comprehension (Z.to_nat (n * 2)) element rest)
    as [[elements f1]| |] eqn:Hc; simpl; try discriminate.
  destruct (dict_of_pairs (pair_up elements)) as [d| |] eqn:Hd; simpl;
    try discriminate.
  intros H. inversion H; subst. exists n, elements, d. auto.
Qed.

Lemma handle_array_shrinks :
  shrinks element -> shrinks (fun f => handle_array self f side).
Proof.
  intros Hs f v f' H. apply handle_array_Ok in H.
  destruct H as (n & items & _ & Hc & _).
  apply (comprehension_shrinks _ _ Hs) in Hc.
  pose proof (readline_length f _ _ (surjective_pairing _)). lia.
Qed.

Lemma handle_dict_shrinks :
  shrinks element -> shrinks (fun f => handle_dict self f side).
Proof.
  intros Hs f v f' H. apply handle_dict_Ok in H.
  destruct H as (n & elements & d & _ & Hc & _).
  apply (comprehension_shrinks _ _ Hs) in Hc.
  pose proof (readline_length f _ _ (surjective_pairing _)). lia.
Qed.

(** An exception of the handler is the [ValueError] of the count, the
    [TypeError] of an unhashable key, or an exception of an element. *)
Lemma handle_array_Raise f e :
  handle_array self f side = Raise e ->
  e = ValueError \/ exists f0, element f0 = Raise e.
Proof.
  unfold handle_array. destruct (readline f) as [line rest].
  destruct (py_int_outcome (rstrip is_crlf line)) as [[n E] | E]; rewrite E;
    simpl; [|intros H; inversion H; now left].
  destruct (comprehension (Z.to_nat n) element rest) as [[items f1]| |] eqn:Hc;
    simpl; try discriminate.
  intros H. inversion H; subst. right. eapply comprehension_raise; eauto.
Qed.

Lemma handle_dict_Raise f e :
  handle_dict self f side = Raise e ->
  e = ValueError \/ e = TypeError \/ exists f0, element f0 = Raise e.
Proof.
  unfold handle_dict. destruct (readline f) as [line rest].
  destruct (py_int_outcome (rstrip is_crlf line)) as [[n E] | E]; rewrite E;
    simpl; [|intros H; inversion H; now left].
  destruct (comprehension (Z.to_nat (n * 2)) element rest)
    as [[elements f1]| |] eqn:Hc; simpl; try discriminate.
  - unfold dict_of_pairs.
    destruct (dict_fill_outcome (pair_up elements) []) as [[d E'] | E'];
      rewrite E'; simpl; [discriminate|].
    intros H. inversion H. auto.
  - intros H. inversion H; subst. right; right.
    eapply comprehension_raise; eauto.
Qed.

Lemma handle_array_fuel f :
  shrinks element ->
  handle_array self f side = OutOfFuel ->
  exists f0, (List.length f0 <= List.length f)%nat /\ element f0 = OutOfFuel.
Proof.
  intros Hs. unfold handle_array.
  destruct (readline f) as [line rest] eqn:Hl. apply readline_length in Hl.
  destruct (py_int_outcome (rstrip is_crlf line)) as [[n E] | E]; rewrite E;
    simpl; [|discriminate].
  destruct (comprehension (Z.to_nat n) element rest) as [[items f1]| |] eqn:Hc;
    simpl; try discriminate.
  intros _. destruct (comprehension_fuel _ _ Hs _ Hc) as (f0 & Hle & H0).
  exists f0. split; [lia | exact H0].
Qed.

Lemma handle_dict_fuel f :
  shrinks element ->
  handle_dict self f side = OutOfFuel ->
  exists f0, (List.length f0 <= List.length f)%nat /\ element f0 = OutOfFuel.
Proof.
  intros Hs. unfold handle_dict.
  destruct (readline f) as [line rest] eqn:Hl. apply readline_length in Hl.
  destruct (py_int_outcome (rstrip is_crlf line)) as [[n E] | E]; rewrite E;
    simpl; [|discriminate].
  destruct (comprehension (Z.to_nat (n * 2)) element rest)
    as [[elements f1]| |] eqn:Hc; simpl; try discriminate.
  - unfold dict_of_pairs.
    destruct (dict_fill_outcome (pair_up elements) []) as [[d E'] | E'];
      rewrite E'; simpl; discriminate.
  - intros _. destruct (comprehension_fuel _ _ Hs _ Hc) as (f0 & Hle & H0).
    exists f0. split; [lia | exact H0].
Qed.

End Aggregates.

Lemma handle_array_ext (self self' : handler) (side : Z) (f : stream) :
  shrinks (fun f0 => self f0 side) ->
  (forall f0, (List.length f0 <= List.length f)%nat ->
              self f0 side = self' f0 side) ->
  handle_array self f side = handle_array self' f side.
Proof.
  intros Hs H. unfold handle_array.
  destruct (readline f) as [line rest] eqn:Hl. apply readline_length in Hl.
  destruct (py_int (rstrip is_crlf line)) as [n| |]; simpl; try reflexivity.
  rewrite (comprehension_ext _ (fun f0 => self' f0 side) _ Hs rest);
    [reflexivity|].
  intros f0 H0. apply H. lia.
Qed.

Lemma handle_dict_ext (self self' : handler) (side : Z) (f : stream) :
  shrinks (fun f0 => self f0 side) ->
  (forall f0, (List.length f0 <= List.length f)%nat ->
              self f0 side = self' f0 side) ->
  handle_dict self f side = handle_dict self' f side.
Proof.
  intros Hs H. unfold handle_dict.
  destruct (readline f) as [line rest] eqn:Hl. apply readline_length in Hl.
  destruct (py_int (rstrip is_crlf line)) as [n| |]; simpl; try reflexivity.
  rewrite (comprehension_ext _ (fun f0 => self' f0 side) _ Hs rest);
    [reflexivity|].
  intros f0 H0. apply H. lia.
Qed.

(** A call that returns has read at least the tag. *)
Lemma handle_request_reads (fuel : nat) (side : Z) :
  forall f v f',
    handle_request fuel f side = Ok (v, f') ->
    (List.length f' < List.length f)%nat.
Proof.
  induction fuel as [|fuel IH]; intros f v f' H; [discriminate|].
  destruct f as [|c t]; [discriminate|].
  rewrite handle_request_cons in H. apply except_KeyError_Ok in H.
  assert (Hs : shrinks (fun f0 => handle_request fuel f0 side))
    by (intros f0 v0 f0' H0; apply IH in H0; lia).
  pose proof (handlers_cases (handle_request fuel) c) as Hc.
  destruct (handlers (handle_request fuel) [c]) as [h|]; [|discriminate].
  simpl. destruct Hc as [[_ Hc] | [[_ ->] | [_ ->]]].
  - specialize (Hc t side). rewrite H in Hc.
    destruct Hc as [(v0 & f0 & E & Hle) | [E | E]]; inversion E; subst. lia.
  - apply (handle_array_shrinks _ _ Hs) in H. lia.
  - apply (handle_dict_shrinks _ _ Hs) in H. lia.
Qed.

Lemma handle_request_shrinks (fuel : nat) (side : Z) :
  shrinks (fun f => handle_request fuel f side).
Proof. intros f v f' H. apply handle_request_reads in H. lia. Qed.

Lemma handle_request_no_KeyError (fuel : nat) (f : stream) (side : Z) :
  handle_request fuel f side <> Raise KeyError.
Proof.
  destruct fuel as [|fuel]; [discriminate|].
  destruct f as [|c t]; [discriminate|].
  rewrite handle_request_cons.
  destruct (match handlers (handle_request fuel) [c] with
            | Some h => h t side
            | None => Raise KeyError
            end) as [a|e|]; simpl; try discriminate.
  destruct e; discriminate.
Qed.

(** The [try] of [handle_request] changes the failed lookup only: no
    handler raises [KeyError]. *)
Lemma handle_request_tag (fuel : nat) (c : byte) (t : stream) (side : Z) :
  handle_request (S fuel) (c :: t) side
  = match handlers (handle_request fuel) [c] with
    | Some h => h t side
    | None => Raise (CommandError "bad request")
    end.
Proof.
  rewrite handle_request_cons.
  pose proof (handlers_cases (handle_request fuel) c) as Hc.
  destruct (handlers (handle_request fuel) [c]) as [h|]; [|reflexivity].
  destruct Hc as [[_ Hc] | [[_ ->] | [_ ->]]].
  - apply (except_KeyError_scalar t), Hc.
  - destruct (handle_array (handle_request fuel) t side) as [a|e|] eqn:E;
      try reflexivity.
    destruct e; try reflexivity.
    apply handle_array_Raise in E. destruct E as [E | [f0 E]];
      [discriminate | now apply handle_request_no_KeyError in E].
  - destruct (handle_dict (handle_request fuel) t side) as [a|e|] eqn:E;
      try reflexivity.
    destruct e; try reflexivity.
    apply handle_dict_Raise in E. destruct E as [E | [E | [f0 E]]];
      [discriminate | discriminate |
       now apply handle_request_no_KeyError in E].
Qed.

(** A budget above the length of the input is never exhausted. *)
Lemma handle_request_total (fuel : nat) (side : Z) :
  forall f, (List.length f < fuel)%nat ->
            handle_request fuel f side <> OutOfFuel.
Proof.
  induction fuel as [|fuel IH]; intros f Hf; [lia|].
  destruct f as [|c t]; [discriminate|]. simpl in Hf.
  rewrite handle_request_tag.
  pose proof (handlers_cases (handle_request fuel) c) as Hc.
  destruct (handlers (handle_request fuel) [c]) as [h|]; [|discriminate].
  destruct Hc as [[_ Hc] | [[_ ->] | [_ ->]]]; intros H.
  - specialize (Hc t side). rewrite H in Hc.
    destruct Hc as [(v0 & f0 & E & _) | [E | E]]; discriminate.
  - apply (handle_array_fuel _ _ _ (handle_request_shrinks fuel side)) in H.
    destruct H as (f0 & Hle & H). apply IH in H; [exact H | lia].
  - apply (handle_dict_fuel _ _ _ (handle_request_shrinks fuel side)) in H.
    destruct H as (f0 & Hle & H). apply IH in H; [exact H | lia].
Qed.

(** Above the length of the input, the budget does not matter. *)
Lemma handle_request_budget (fuel : nat) (side : Z) :
  forall fuel' f,
    (List.length f < fuel)%nat -> (List.length f < fuel')%nat ->
    handle_request fuel f side = handle_request fuel' f side.
Proof.
  induction fuel as [|fuel IH]; intros fuel' f Hf Hf'; [lia|].
  destruct fuel' as [|fuel']; [lia|].
  destruct f as [|c t]; [reflexivity|]. simpl in Hf, Hf'.
  rewrite !handle_request_tag.
  assert (Hext : forall f0, (List.length f0 <= List.length t)%nat ->
                   handle_request fuel f0 side = handle_request fuel' f0 side)
    by (intros f0 H0; apply IH; lia).
  pose proof (handle_array_ext _ _ side t
                (handle_request_shrinks fuel side) Hext) as Ha.
  pose proof (handle_dict_ext _ _ side t
                (handle_request_shrinks fuel side) Hext) as Hd.
  destruct c; try reflexivity; simpl; assumption.
Qed.

(** *** The decoder as the program calls it *)

Lemma decode_budget (fuel : nat) (f : stream) (side : Z) :
  (List.length f < fuel)%nat -> handle_request fuel f side = decode f side.
Proof. intros H. apply handle_request_budget; [exact H | lia]. Qed.

Lemma decode_total (f : stream) (side : Z) : decode f side <> OutOfFuel.
Proof. apply handle_request_total. lia. Qed.

Lemma decode_reads (f : stream) (side : Z) (v : pyval) (f' : stream) :
  decode f side = Ok (v, f') -> (List.length f' < List.length f)%nat.
Proof. apply handle_request_reads. Qed.

Lemma decode_shrinks (side : Z) : shrinks (fun f => decode f side).
Proof. intros f v f' H. apply decode_reads in H. lia. Qed.


(** [decode] obeys the recursion of the source: the handler of the tag runs
    on the input after the tag, with [decode] for its elements. *)
Lemma decode_cons (c : byte) (t : stream) (side : Z) :
  decode (c :: t) side
  = match handlers decode [c] with
    | Some h => h t side
    | None => Raise (CommandError "bad request")
    end.
Proof.
  unfold decode at 1. rewrite handle_request_tag. simpl List.length.
  assert (Hext : forall f0, (List.length f0 <= List.length t)%nat ->
            handle_request (S (List.length t)) f0 side = decode f0 side)
    by (intros f0 H0; apply decode_budget; lia).
  pose proof (handle_array_ext _ decode side t
                (handle_request_shrinks _ side) Hext) as Ha.
  pose proof (handle_dict_ext _ decode side t
                (handle_request_shrinks _ side) Hext) as Hd.
  destruct c; try reflexivity; simpl; assumption.
Qed.

(** ** Lines and integers on the wire *)

Lemma uint_value_pos (d : Decimal.uint) : forall acc : positive,
  uint_value (Zpos acc) d = Zpos (Pos.of_uint_acc d acc).
Proof.
  induction d; intros acc; cbn [uint_value Pos.of_uint_acc];
    try reflexivity; rewrite <- IHd; f_equal; lia.
Qed.

Lemma uint_value_0 (d : Decimal.uint) :
  uint_value 0 d = Z.of_N (Pos.of_uint d).
Proof.
  induction d; simpl; try reflexivity; try exact IHd;
    apply (uint_value_pos d).
Qed.

Lemma int_digits_uint (d : Decimal.uint) : forall acc,
  int_digits acc (bytes_of_uint d) = Some (uint_value acc d, []).
Proof.
  induction d; intros acc; simpl; try reflexivity; apply IHd.
Qed.

Lemma py_int_uint (d : Decimal.uint) :
  d <> Decimal.Nil ->
  py_int (bytes_of_uint d) = Ok (uint_value 0 d)
  /\ py_int (x2d :: bytes_of_uint d) = Ok (- uint_value 0 d).
Proof.
  intros Hd. destruct d; try congruence;
    unfold py_int; simpl; rewrite int_digits_uint; split; reflexivity.
Qed.

Lemma to_uint_not_Nil (p : positive) : Pos.to_uint p <> Decimal.Nil.
Proof.
  intros H. pose proof (DecimalPos.Unsigned.of_to p) as E.
  rewrite H in E. discriminate.
Qed.

(** [int(b'%d' % n) == n] *)
Lemma py_int_format_d (n : Z) : py_int (format_d n) = Ok n.
Proof.
  destruct n as [|p|p]; [reflexivity| |]; simpl;
    destruct (py_int_uint _ (to_uint_not_Nil p)) as [Hp Hn];
    [rewrite Hp | rewrite Hn];
    now rewrite uint_value_0, DecimalPos.Unsigned.of_to.
Qed.

Lemma bytes_of_uint_plain (d : Decimal.uint) :
  Forall (fun c => is_crlf c = false) (bytes_of_uint d).
Proof. induction d; simpl; constructor; auto. Qed.

Lemma format_d_plain (n : Z) : Forall (fun c => is_crlf c = false) (format_d n).
Proof.
  destruct n; simpl; repeat constructor; apply bytes_of_uint_plain.
Qed.

Lemma readline_other (c : byte) (t : stream) :
  c <> LF -> readline (c :: t) = (c :: fst (readline t), snd (readline t)).
Proof.
  intros H. destruct c; try (now contradiction H);
    simpl; destruct (readline t); reflexivity.
Qed.

Lemma is_crlf_LF (c : byte) : is_crlf c = false -> c <> LF.
Proof. intros H ->. discriminate. Qed.

(** A line without CR or LF, its terminator, and what follows. *)
Lemma readline_crlf (l : bytes) (rest : stream) :
  Forall (fun c => is_crlf c = false) l ->
  readline (l ++ CRLF ++ rest) = (l ++ CRLF, rest).
Proof.
  induction 1 as [|c l Hc Hl IH]; [reflexivity|].
  simpl app. rewrite readline_other by now apply is_crlf_LF.
  simpl app in IH. now rewrite IH.
Qed.

Lemma rstrip_crlf (l : bytes) :
  Forall (fun c => is_crlf c = false) l -> rstrip is_crlf (l ++ CRLF) = l.
Proof.
  induction 1 as [|c l Hc Hl IH]; [reflexivity|].
  simpl app. simpl rstrip. simpl app in IH. rewrite IH, Hc.
  destruct l; reflexivity.
Qed.

(** The line of a count or a length, as the handlers read it. *)
Lemma read_number (n : Z) (rest : stream) :
  readline (format_d n ++ CRLF ++ rest) = (format_d n ++ CRLF, rest)
  /\ py_int (rstrip is_crlf (format_d n ++ CRLF)) = Ok n.
Proof.
  split.
  - apply readline_crlf, format_d_plain.
  - rewrite rstrip_crlf by apply format_d_plain. apply py_int_format_d.
Qed.



Lemma decode_array (t : stream) (side : Z) :
  decode (x2a :: t) side = handle_array decode t side.
Proof. now rewrite decode_cons. Qed.

Lemma decode_map (t : stream) (side : Z) :
  decode (x25 :: t) side = handle_dict decode t side.
Proof. now rewrite decode_cons. Qed.

(** ** The end of the input *)





(** ** Maps *)

Lemma comprehension_length (p : stream -> result (pyval * stream)) (k : nat) :
  forall f l f', comprehension k p f = Ok (l, f') -> List.length l = k.
Proof.
  induction k as [|k IH]; intros f l f' H; simpl in H.
  - now inversion H.
  - destruct (p f) as [[a f1]| |]; simpl in H; try discriminate.
    destruct (comprehension k p f1) as [[l1 f2]| |] eqn:E; simpl in H;
      try discriminate.
    inversion H; subst. simpl. f_equal. eapply IH; eauto.
Qed.

Lemma dict_fill_unhashable (pairs : list (pyval * pyval)) : forall d,
  Exists (fun p => hashable (fst p) = false) pairs ->
  dict_fill d pairs = Raise TypeError.
Proof.
  induction pairs as [|[k v] t IH]; intros d H; [inversion H|].
  simpl. unfold dict_setitem. destruct (hashable k) eqn:Hk; [|reflexivity].
  simpl. apply IH. inversion H as [p l Hp | p l Hl]; subst; [|exact Hl].
  simpl in Hp. congruence.
Qed.

(** The elements of a map that was read in full, paired. *)
Lemma map_pairs (side : Z) (f : stream) (n : Z)
    (elements : list pyval) (rest : stream) :
  comprehension (Z.to_nat (n * 2)) (fun f0 => decode f0 side) f
  = Ok (elements, rest) ->
  pair_up elements = map (nth_pair elements) (seq 0 (Z.to_nat n)).
Proof.
  intros H. apply comprehension_length in H.
  apply pair_up_nth. left. lia.
Qed.

(** C10: a map whose elements are all read, with an array in the place of
    a key, is not decoded: building the dict raises [TypeError], which is
    neither [Disconnect] nor [CommandError], and which the connection loop
    does not catch. *)
Theorem map_with_array_key_raises_TypeError
    (side : Z) (t : stream) (n : Z) (elements : list pyval) (rest : stream)
    (i : nat) (items : list pyval) :
  py_int (rstrip is_crlf (fst (readline t))) = Ok n ->
  comprehension (Z.to_nat (n * 2)) (fun f => decode f side) (snd (readline t))
  = Ok (elements, rest) ->
  (2 * i < List.length elements)%nat ->
  nth (2 * i) elements VNone = VList items ->
  decode (x25 :: t) side = Raise TypeError
  /\ (side = server_side ->
      forall kv, serve_request kv (x25 :: t) = Stop kv (Escaped TypeError)).
Proof.
  intros Hn Hc Hi Hkey.
  assert (H : decode (x25 :: t) side = Raise TypeError).
  { rewrite decode_map. unfold handle_dict.
    destruct (readline t) as [line f]. simpl in Hn, Hc.
    rewrite Hn. simpl bind. rewrite Hc. simpl bind.
    rewrite (map_pairs side f n elements rest Hc).
    unfold dict_of_pairs. rewrite dict_fill_unhashable; [reflexivity|].
    apply Exists_exists. exists (nth_pair elements i). split.
    - apply in_map, in_seq. apply comprehension_length in Hc. lia.
    - change (fst (nth_pair elements i)) with (nth (2 * i) elements VNone).
      now rewrite Hkey. }
  split; [exact H|]. intros -> kv. unfold serve_request. now rewrite H.
Qed.

Lemma map_with_array_key_raises_TypeError_witness :
  decode (bytes_of "%1" ++ CRLF ++ bytes_of "*0" ++ CRLF
            ++ bytes_of ":1" ++ CRLF) server_side
  = Raise TypeError.
Proof.
  apply (map_with_array_key_raises_TypeError server_side
           (bytes_of "1" ++ CRLF ++ bytes_of "*0" ++ CRLF
              ++ bytes_of ":1" ++ CRLF)
           1 [VList []; VInt 1] [] 0%nat []).
  - reflexivity.
  - reflexivity.
  - simpl. lia.
  - reflexivity.
Defined.

(** ** Keys *)

Lemma key_eqb_tuple (items items' : list pyval) :
  key_eqb (VTuple items) (VTuple items')
  = (fix all2 (l l' : list pyval) {struct l} : bool :=
       match l, l' with
       | [], [] => true
       | a :: t, a' :: t' => key_eqb a a' && all2 t t'
       | _, _ => false
       end) items items'.
Proof. reflexivity. Qed.

Lemma key_eqb_tuple_cons a t a' t' :
  key_eqb (VTuple (a :: t)) (VTuple (a' :: t'))
  = key_eqb a a' && key_eqb (VTuple t) (VTuple t').
Proof. reflexivity. Qed.

(** Two keys are equal when they are hashable and the same up to the
    class of their tuples. *)
Ltac mismatch :=
  simpl; split;
  [ discriminate
  | let H1 := fresh in let H2 := fresh in
    intros [H1 H2]; first [discriminate H1 | discriminate H2] ].

Lemma key_eqb_spec (x : pyval) : forall y,
  key_eqb x y = true <-> hashable x = true /\ as_tuple x = as_tuple y.
Proof.
  induction x as [| n | b | s | m IH | items IH | items IH | entries IH]
    using pyval_induction; intros y.
  - destruct y; try mismatch. simpl. tauto.
  - destruct y as [| n' | | | | | |]; try mismatch. simpl.
    rewrite Z.eqb_eq. split; [intros ->; tauto | intros [_ H]; congruence].
  - destruct y as [| | b' | | | | |]; try mismatch. simpl.
    rewrite bytes_eqb_eq. split; [intros ->; tauto | intros [_ H]; congruence].
  - destruct y as [| | | s' | | | |]; try mismatch. simpl.
    rewrite String.eqb_eq. split; [intros ->; tauto | intros [_ H]; congruence].
  - destruct y as [| | | | m' | | l |]; try mismatch.
    + simpl. rewrite IH. split; intros [Hh He]; split; congruence.
    + destruct l as [|a [|c l]]; try mismatch.
      simpl. rewrite IH. split; intros [Hh He]; split; congruence.
  - mismatch.
  - destruct y as [| | | | m' | | l |]; try mismatch.
    + destruct items as [|a [|c items]]; try mismatch.
      inversion IH as [|? ? Ha _]; subst. simpl. rewrite Ha, andb_true_r.
      split; intros [Hh He]; split; congruence.
    + revert l. induction IH as [|a items Ha _ IHl]; intros l.
      * destruct l; try mismatch. simpl. tauto.
      * destruct l as [|a' l]; try mismatch.
        rewrite key_eqb_tuple_cons, andb_true_iff, Ha, IHl.
        simpl. rewrite andb_true_iff.
        split.
        { intros [[H1 H2] [H3 H4]]. inversion H4. split; [tauto|].
          congruence. }
        { intros [[H1 H3] H]. inversion H as [[H2 H4]].
          repeat split; trivial; congruence. }
  - mismatch.
Qed.

Lemma key_eqb_refl (x : pyval) : hashable x = true -> key_eqb x x = true.
Proof. intros H. apply key_eqb_spec. tauto. Qed.

Lemma hashable_as_tuple (x : pyval) : hashable (as_tuple x) = hashable x.
Proof.
  induction x as [| n | b | s | m IH | items IH | items IH | entries IH]
    using pyval_induction; simpl; try reflexivity.
  - now rewrite IH, andb_true_r.
  - induction IH as [|a items Ha _ IHl]; simpl; [reflexivity|].
    now rewrite Ha, IHl.
Qed.

(** A value equal to a key is a key, and equal keys find the same
    entries. *)
Lemma key_eqb_hashable (x y : pyval) :
  key_eqb x y = true -> hashable y = true.
Proof.
  intros H. apply key_eqb_spec in H. destruct H as [Hh He].
  now rewrite <- hashable_as_tuple, <- He, hashable_as_tuple.
Qed.

Lemma key_eqb_sym (x y : pyval) : key_eqb x y = key_eqb y x.
Proof.
  destruct (key_eqb x y) eqn:E; destruct (key_eqb y x) eqn:E';
    try reflexivity.
  - pose proof (key_eqb_hashable _ _ E) as Hy. apply key_eqb_spec in E.
    assert (key_eqb y x = true)
      by (apply key_eqb_spec; split; [|symmetry]; tauto).
    congruence.
  - pose proof (key_eqb_hashable _ _ E') as Hx. apply key_eqb_spec in E'.
    assert (key_eqb x y = true)
      by (apply key_eqb_spec; split; [|symmetry]; tauto).
    congruence.
Qed.

Lemma key_eqb_trans (x y z : pyval) :
  key_eqb x y = true -> key_eqb y z = true -> key_eqb x z = true.
Proof.
  intros H1 H2. apply key_eqb_spec in H1, H2. apply key_eqb_spec.
  split; [tauto|]. destruct H1 as [_ ->]. tauto.
Qed.

Lemma key_eqb_congr (x y z : pyval) :
  key_eqb x y = true -> key_eqb x z = key_eqb y z.
Proof.
  intros H. destruct (key_eqb y z) eqn:E.
  - eapply key_eqb_trans; eauto.
  - destruct (key_eqb x z) eqn:E'; [|reflexivity].
    rewrite key_eqb_sym in H.
    now rewrite (key_eqb_trans _ _ _ H E') in E.
Qed.

(** ** Dicts as the decoder and the store build them *)

Lemma dict_find_update (d : pydict) (k v key : pyval) :
  dict_find (dict_update d k v) key
  = if key_eqb k key then Some v else dict_find d key.
Proof.
  induction d as [|[k0 v0] t IH]; simpl; [reflexivity|].
  destruct (key_eqb k0 k) eqn:E; simpl.
  - rewrite (key_eqb_congr k0 k key E). now destruct (key_eqb k key).
  - rewrite IH. destruct (key_eqb k0 key) eqn:E0; [|reflexivity].
    destruct (key_eqb k key) eqn:E1; [|reflexivity].
    rewrite key_eqb_sym in E1.
    now rewrite (key_eqb_trans _ _ _ E0 E1) in E.
Qed.

Lemma dict_find_app (d : pydict) (k v key : pyval) :
  dict_find (d ++ [(k, v)]) key
  = match dict_find d key with
    | Some x => Some x
    | None => if key_eqb k key then Some v else None
    end.
Proof.
  induction d as [|[k0 v0] t IH]; simpl; [reflexivity|].
  now destruct (key_eqb k0 key).
Qed.

Lemma dict_update_keys (Q : pyval -> bool) (d : pydict) (k v : pyval) :
  forallb (fun e => Q (fst e)) d = true -> Q k = true ->
  forallb (fun e => Q (fst e)) (dict_update d k v) = true.
Proof.
  intros Hd Hk. induction d as [|[k0 v0] t IH]; simpl.
  - now rewrite Hk.
  - simpl in Hd. apply andb_true_iff in Hd. destruct Hd as [H0 Ht].
    destruct (key_eqb k0 k); simpl; rewrite H0; simpl; auto.
Qed.

Lemma unique_keys_update (d : pydict) (k v : pyval) :
  unique_keys d = true -> unique_keys (dict_update d k v) = true.
Proof.
  induction d as [|[k0 v0] t IH]; intros H; [reflexivity|].
  simpl in H. apply andb_true_iff in H. destruct H as [H0 Ht].
  simpl. destruct (key_eqb k0 k) eqn:E; simpl.
  - now rewrite H0, Ht.
  - rewrite (IH Ht), andb_true_r.
    apply (dict_update_keys (fun x => negb (key_eqb k0 x))); [exact H0|].
    now rewrite E.
Qed.

Lemma unique_keys_store (pairs : list (pyval * pyval)) : forall d,
  unique_keys d = true -> unique_keys (store_pairs d pairs) = true.
Proof.
  induction pairs as [|[k v] t IH]; intros d H; [exact H|].
  apply IH, unique_keys_update, H.
Qed.

Lemma dict_update_length (d : pydict) (k v : pyval) :
  List.length (dict_update d k v)
  = match dict_find d k with
    | Some _ => List.length d
    | None => S (List.length d)
    end.
Proof.
  induction d as [|[k0 v0] t IH]; simpl; [reflexivity|].
  destruct (key_eqb k0 k); simpl; [reflexivity|].
  rewrite IH. now destruct (dict_find t k).
Qed.

Lemma store_pairs_length (pairs : list (pyval * pyval)) : forall d,
  (List.length (store_pairs d pairs) <= List.length d + List.length pairs)%nat.
Proof.
  induction pairs as [|[k v] t IH]; intros d; simpl; [lia|].
  specialize (IH (dict_update d k v)). rewrite dict_update_length in IH.
  destruct (dict_find d k); lia.
Qed.

Lemma store_pairs_app (d : pydict) (l l' : list (pyval * pyval)) :
  store_pairs d (l ++ l') = store_pairs (store_pairs d l) l'.
Proof. apply fold_left_app. Qed.

(** A dict built from pairs finds, for a key, the value of the last pair
    with an equal key. *)
Lemma dict_find_store (pairs : list (pyval * pyval)) : forall d key,
  dict_find (store_pairs d pairs) key
  = match dict_find (List.rev pairs) key with
    | Some x => Some x
    | None => dict_find d key
    end.
Proof.
  induction pairs as [|[k v] t IH]; intros d key; [reflexivity|].
  simpl. rewrite IH, dict_find_app, dict_find_update.
  destruct (dict_find (List.rev t) key); [reflexivity|].
  now destruct (key_eqb k key).
Qed.

Lemma dict_find_Exists (d : pydict) (key : pyval) :
  Exists (fun e => key_eqb (fst e) key = true) d ->
  dict_find d key <> None.
Proof.
  induction 1 as [[k v] t H | [k v] t H IH]; simpl.
  - simpl in H. now rewrite H.
  - destruct (key_eqb k key); [discriminate | exact IH].
Qed.

(** A pair whose key is equal to the key of an earlier pair adds no
    entry. *)
Lemma store_pairs_duplicate (d : pydict) (k v : pyval)
    (before after : list (pyval * pyval)) :
  Exists (fun e => key_eqb (fst e) k = true) before ->
  (List.length (store_pairs d (before ++ (k, v) :: after))
   < List.length d + List.length (before ++ (k, v) :: after))%nat.
Proof.
  intros H. rewrite store_pairs_app, length_app. simpl.
  pose proof (store_pairs_length after
                (dict_update (store_pairs d before) k v)) as Ha.
  rewrite dict_update_length in Ha.
  pose proof (store_pairs_length before d) as Hb.
  destruct (dict_find (store_pairs d before) k) eqn:E; [lia|].
  rewrite dict_find_store in E.
  apply Exists_rev, dict_find_Exists in H.
  destruct (dict_find (List.rev before) k); [discriminate | contradiction].
Qed.

Lemma dict_fill_hashable (pairs : list (pyval * pyval)) : forall d,
  Forall (fun p => hashable (fst p) = true) pairs ->
  dict_fill d pairs = Ok (store_pairs d pairs).
Proof.
  induction pairs as [|[k v] t IH]; intros d H; [reflexivity|].
  inversion H as [|p l Hk Hl]; subst. simpl in Hk.
  simpl. unfold dict_setitem. rewrite Hk. simpl. now apply IH.
Qed.

(** C6, as the code has it.  A map whose elements are all read, with
    hashable keys, decodes to a dict: the pairs of elements [2i] and [2i+1]
    are stored in the order of the input, so the keys of the result are
    pairwise different, a key finds the value of the last pair that has it,
    and a pair whose key an earlier pair has adds no entry. *)
Theorem map_decodes_to_dict
    (side : Z) (t : stream) (n : Z) (elements : list pyval) (rest : stream) :
  py_int (rstrip is_crlf (fst (readline t))) = Ok n ->
  comprehension (Z.to_nat (n * 2)) (fun f => decode f side) (snd (readline t))
  = Ok (elements, rest) ->
  (forall i, (2 * i < List.length elements)%nat ->
             hashable (nth (2 * i) elements VNone) = true) ->
  let pairs := map (nth_pair elements) (seq 0 (Z.to_nat n)) in
  let d := store_pairs [] pairs in
  decode (x25 :: t) side = Ok (VDict d, rest)
  /\ unique_keys d = true
  /\ (forall key, dict_find d key = dict_find (List.rev pairs) key)
  /\ (forall before k v after,
        pairs = before ++ (k, v) :: after ->
        Exists (fun e => key_eqb (fst e) k = true) before ->
        (List.length d < List.length pairs)%nat).
Proof.
  intros Hn Hc Hkeys pairs d.
  split; [|split; [|split]].
  - rewrite decode_map. unfold handle_dict.
    destruct (readline t) as [line f]. simpl in Hn, Hc.
    rewrite Hn. simpl bind. rewrite Hc. simpl bind.
    rewrite (map_pairs side f n elements rest Hc).
    unfold dict_of_pairs. rewrite dict_fill_hashable; [reflexivity|].
    apply Forall_forall. intros p Hin. apply in_map_iff in Hin.
    destruct Hin as (i & <- & Hi). apply in_seq in Hi.
    change (fst (nth_pair elements i)) with (nth (2 * i) elements VNone).
    apply Hkeys. apply comprehension_length in Hc. lia.
  - now apply unique_keys_store.
  - intros key. unfold d. rewrite dict_find_store.
    now destruct (dict_find (List.rev pairs) key).
  - intros before k v after Hp Hdup. unfold d. rewrite Hp.
    apply (store_pairs_duplicate [] k v before after Hdup).
Qed.

Lemma map_decodes_to_dict_witness :
  decode (bytes_of "%2" ++ CRLF ++ bytes_of ":7" ++ CRLF ++ bytes_of ":1"
            ++ CRLF ++ bytes_of ":7" ++ CRLF ++ bytes_of ":2" ++ CRLF)
         server_side
  = Ok (VDict (store_pairs []
                 (map (nth_pair [VInt 7; VInt 1; VInt 7; VInt 2])
                    (seq 0 (Z.to_nat 2)))), []).
Proof.
  apply (map_decodes_to_dict server_side
           (bytes_of "2" ++ CRLF ++ bytes_of ":7" ++ CRLF ++ bytes_of ":1"
              ++ CRLF ++ bytes_of ":7" ++ CRLF ++ bytes_of ":2" ++ CRLF)
           2 [VInt 7; VInt 1; VInt 7; VInt 2] []).
  - reflexivity.
  - reflexivity.
  - intros i Hi. simpl in Hi.
    destruct i as [|[|i]]; [reflexivity | reflexivity | lia].
Defined.

(** A map that gives the key [a] twice: the dict that is decoded has one
    entry, with the second value; the two pairs of the input are not
    kept. *)
Lemma duplicate_keys_are_merged :
  let wire :=
    bytes_of "%2" ++ CRLF
      ++ bytes_of "$1" ++ CRLF ++ bytes_of "a" ++ CRLF ++ bytes_of ":1" ++ CRLF
      ++ bytes_of "$1" ++ CRLF ++ bytes_of "a" ++ CRLF ++ bytes_of ":2" ++ CRLF
  in
  decode wire server_side = Ok (VDict [(VBytes (bytes_of "a"), VInt 2)], [])
  /\ decode wire server_side
     <> Ok (VDict [(VBytes (bytes_of "a"), VInt 1);
                   (VBytes (bytes_of "a"), VInt 2)], []).
Proof. split; [reflexivity | discriminate]. Qed.

(** ** The round trip *)

Lemma write_list (items : list pyval) :
  _write (VList items)
  = (body <- write_items items ;;
     Ok ([x2a] ++ format_d (Z.of_nat (List.length items)) ++ CRLF ++ body)).
Proof. reflexivity. Qed.

Lemma write_dict (entries : list (pyval * pyval)) :
  _write (VDict entries)
  = (body <- write_entries entries ;;
     Ok ([x25] ++ format_d (Z.of_nat (List.length entries)) ++ CRLF ++ body)).
Proof. reflexivity. Qed.








Lemma firstn_length_app {A : Type} (l r : list A) :
  firstn (List.length l) (l ++ r) = l.
Proof.
  rewrite firstn_app, firstn_all, Nat.sub_diag. simpl. apply app_nil_r.
Qed.

Lemma skipn_length_app {A : Type} (l r : list A) :
  skipn (List.length l) (l ++ r) = r.
Proof.
  rewrite skipn_app, skipn_all, Nat.sub_diag. reflexivity.
Qed.

Lemma drop_last2_crlf (b : bytes) : drop_last2 (b ++ CRLF) = b.
Proof.
  unfold drop_last2. rewrite length_app. simpl List.length.
  replace (List.length b + 2 - 2)%nat with (List.length b) by lia.
  apply firstn_length_app.
Qed.








(** ** The session ends *)

(** The encoder returns, or raises the [NameError] of its branch for
    [Error]. *)
Lemma write_outcome (v : pyval) :
  (exists wire, _write v = Ok wire) \/ _write v = Raise NameError.
Proof.
  induction v as [| n | b | s | m IH | items IH | items IH | entries IH]
    using pyval_induction; try (left; eexists; reflexivity);
    try (right; reflexivity).
  - rewrite write_list.
    assert (H : (exists body, write_items items = Ok body)
                \/ write_items items = Raise NameError).
    { induction IH as [|a t [[w Ha] | Ha] _ [[body Ht] | Ht]]; simpl;
        try rewrite Ha; try rewrite Ht; simpl; eauto. }
    destruct H as [[body H] | H]; rewrite H; simpl; eauto.
  - change (_write (VTuple items)) with (_write (VList items)).
    rewrite write_list.
    assert (H : (exists body, write_items items = Ok body)
                \/ write_items items = Raise NameError).
    { induction IH as [|a t [[w Ha] | Ha] _ [[body Ht] | Ht]]; simpl;
        try rewrite Ha; try rewrite Ht; simpl; eauto. }
    destruct H as [[body H] | H]; rewrite H; simpl; eauto.
  - rewrite write_dict.
    assert (H : (exists body, write_entries entries = Ok body)
                \/ write_entries entries = Raise NameError).
    { induction IH as [|[k x] t [[[wk Hk] | Hk] [[wx Hx] | Hx]] _
                         [[body Ht] | Ht]]; simpl in *;
        try rewrite Hk; try rewrite Hx; try rewrite Ht; simpl; eauto. }
    destruct H as [[body H] | H]; rewrite H; simpl; eauto.
Qed.

Lemma mget_values_outcome (kv : pydict) (keys : list pyval) :
  mget_values kv keys <> OutOfFuel.
Proof.
  induction keys as [|k t IH]; simpl; [discriminate|].
  unfold dict_get. destruct (hashable k); simpl; [|discriminate].
  destruct (mget_values kv t); simpl; try discriminate. contradiction.
Qed.

Lemma mset_loop_outcome (data : list (pyval * pyval)) : forall kv,
  snd (mset_loop kv data) <> OutOfFuel.
Proof.
  induction data as [|[k v] t IH]; intros kv; simpl; [discriminate|].
  unfold dict_setitem. destruct (hashable k); simpl; [apply IH | discriminate].
Qed.

(** No method exhausts a budget: none has one. *)
Lemma method_outcome (command : bytes) (m : method) (kv : pydict)
    (args : list pyval) :
  lookup_command get_commands command = Some m ->
  snd (m kv args) <> OutOfFuel.
Proof.
  unfold get_commands. simpl.
  repeat match goal with
         | |- context [if ?c then _ else _] => destruct c
         end; intros H; inversion H; subst; clear H.
  - unfold get. destruct args as [|a [|b t]]; simpl; try discriminate.
    unfold dict_get. destruct (hashable a); discriminate.
  - unfold set. destruct args as [|a [|b [|c t]]]; simpl; try discriminate.
    unfold dict_setitem. destruct (hashable a); discriminate.
  - unfold delete. destruct args as [|a [|b t]]; simpl; try discriminate.
    unfold dict_contains. destruct (hashable a); simpl; [|discriminate].
    destruct (dict_find kv a); discriminate.
  - unfold flush. destruct args; discriminate.
  - unfold mget. simpl. pose proof (mget_values_outcome kv args) as H.
    destruct (mget_values kv args); simpl; congruence.
  - unfold mset. pose proof (mset_loop_outcome (pair_up args) kv) as H.
    destruct (mset_loop kv (pair_up args)) as [kv' r]. simpl in *.
    destruct r; simpl; congruence.
Qed.

Lemma get_response_outcome (kv : pydict) (data : pyval) :
  snd (get_response kv data) <> OutOfFuel.
Proof.
  unfold get_response.
  destruct (match data with
            | VList items => Ok items
            | VBytes b => Ok (map VBytes (bytes_split b))
            | VStr s => Ok (map VStr (str_split s))
            | _ => Raise
                     (CommandError "Request must be list or simple string.")
            end) as [[|first args]|e|] eqn:E; cbn [snd]; try discriminate.
  - destruct first; cbn [snd]; try discriminate.
    destruct (lookup_command get_commands (bytes_upper b)) as [m|] eqn:Hm.
    + destruct (decode_ascii_outcome (bytes_upper b)) as [[s H] | H];
        rewrite H; [|cbn [snd]; discriminate].
      eapply method_outcome; eauto.
    + cbn [snd].
      destruct (decode_ascii_outcome (bytes_upper b)) as [[s H] | H];
        rewrite H; cbn [bind]; discriminate.
  - destruct data; discriminate E.
Qed.

Lemma serve_request_outcome (kv : pydict) (f : stream) :
  match serve_request kv f with
  | Next _ f' _ => (List.length f' < List.length f)%nat
  | Stop _ why => why <> Unfinished
  end.
Proof.
  unfold serve_request.
  destruct (decode f server_side) as [[data f']|e|] eqn:Hd.
  - apply decode_reads in Hd. unfold respond.
    pose proof (get_response_outcome kv data) as Hg.
    destruct (get_response kv data) as [kv' r]. simpl in Hg.
    assert (Hw : forall resp,
              match write_response resp with
              | Ok sent => Next kv' f' sent
              | Raise e => Stop kv' (Escaped e)
              | OutOfFuel => Stop kv' Unfinished
              end = match write_response resp with
                    | Ok sent => Next kv' f' sent
                    | _ => Stop kv' (Escaped NameError)
                    end).
    { intros resp. unfold write_response.
      destruct (write_outcome resp) as [[w H] | H]; now rewrite H. }
    destruct r as [resp|e|]; [| |contradiction].
    + rewrite Hw. destruct (write_response resp); [exact Hd | |]; discriminate.
    + destruct e; discriminate.
  - destruct e; discriminate.
  - now apply decode_total in Hd.
Qed.

Lemma serve_ends (fuel : nat) : forall kv f,
  (List.length f < fuel)%nat -> ending (serve fuel kv f) <> Unfinished.
Proof.
  induction fuel as [|fuel IH]; intros kv f Hf; [lia|].
  simpl. pose proof (serve_request_outcome kv f) as H.
  destruct (serve_request kv f) as [kv' f' sent | kv' why]; simpl.
  - apply IH. lia.
  - exact H.
Qed.

(** Every session ends, by the [break] or by an exception. *)
Lemma connection_handler_ends (kv : pydict) (f : stream) :
  ending (connection_handler kv f) <> Unfinished.
Proof. apply serve_ends. lia. Qed.

(** ** Concrete sessions *)

(** SET, then GET of the same key, then the end of the input: two
    responses, and the session is closed. *)
Example set_then_get :
  connection_handler []
    (bytes_of "*3" ++ CRLF ++ bytes_of "$3" ++ CRLF ++ bytes_of "SET" ++ CRLF
       ++ bytes_of "$1" ++ CRLF ++ bytes_of "k" ++ CRLF
       ++ bytes_of "$1" ++ CRLF ++ bytes_of "v" ++ CRLF
       ++ bytes_of "+GET k" ++ CRLF)
  = {| store := [(VBytes (bytes_of "k"), VBytes (bytes_of "v"))];
       written := [bytes_of ":1" ++ CRLF;
                   bytes_of "$1" ++ CRLF ++ bytes_of "v" ++ CRLF];
       ending := Closed |}.
Proof. reflexivity. Qed.

(** An unknown command: the [CommandError] is caught and made an [Error],
    and writing the [Error] raises [NameError]; nothing is written and the
    session ends. *)
Example unknown_command_session :
  connection_handler []
    (bytes_of "*1" ++ CRLF ++ bytes_of "$3" ++ CRLF ++ bytes_of "FOO" ++ CRLF)
  = {| store := []; written := []; ending := Escaped NameError |}.
Proof. reflexivity. Qed.

(** A list in the place of a key of [mset]: the pairs before it are stored,
    and the [TypeError] of the store leaves the method. *)
Example mset_list_key :
  mset [] [VBytes (bytes_of "a"); VInt 1; VList []; VInt 2]
  = ([(VBytes (bytes_of "a"), VInt 1)], Raise TypeError).
Proof. reflexivity. Qed.

(** * Further properties of the code *)

(** ** The store operations *)

Lemma dict_remove_keys (Q : pyval -> bool) (d : pydict) (k : pyval) :
  forallb (fun e => Q (fst e)) d = true ->
  forallb (fun e => Q (fst e)) (dict_remove d k) = true.
Proof.
  induction d as [|[k0 v0] t IH]; intros H; [reflexivity|].
  simpl in H. apply andb_true_iff in H. destruct H as [H0 Ht].
  simpl. destruct (key_eqb k0 k); [exact Ht|].
  simpl. now rewrite H0, IH.
Qed.

Lemma unique_keys_remove (d : pydict) (k : pyval) :
  unique_keys d = true -> unique_keys (dict_remove d k) = true.
Proof.
  induction d as [|[k0 v0] t IH]; intros H; [reflexivity|].
  simpl in H. apply andb_true_iff in H. destruct H as [H0 Ht].
  simpl. destruct (key_eqb k0 k); [exact Ht|].
  simpl. rewrite (IH Ht), andb_true_r.
  now apply (dict_remove_keys (fun x => negb (key_eqb k0 x))).
Qed.

Lemma dict_ok_update (d : pydict) (k v : pyval) :
  dict_ok d = true -> hashable k = true -> dict_ok (dict_update d k v) = true.
Proof.
  unfold dict_ok. intros H Hk. apply andb_true_iff in H. destruct H as [Hh Hu].
  now rewrite (dict_update_keys hashable d k v Hh Hk), unique_keys_update.
Qed.

Lemma dict_ok_remove (d : pydict) (k : pyval) :
  dict_ok d = true -> dict_ok (dict_remove d k) = true.
Proof.
  unfold dict_ok. intros H. apply andb_true_iff in H. destruct H as [Hh Hu].
  now rewrite (dict_remove_keys hashable d k Hh), unique_keys_remove.
Qed.

Lemma dict_ok_mset_loop (data : list (pyval * pyval)) : forall kv,
  dict_ok kv = true -> dict_ok (fst (mset_loop kv data)) = true.
Proof.
  induction data as [|[k v] t IH]; intros kv H; [exact H|].
  simpl. unfold dict_setitem. destruct (hashable k) eqn:Hk; [|exact H].
  apply IH. now apply dict_ok_update.
Qed.

(** In a store that keeps the invariant, a key that is found has no second
    entry. *)
Lemma dict_find_unique (d : pydict) (k0 v0 key : pyval) :
  unique_keys ((k0, v0) :: d) = true -> key_eqb k0 key = true ->
  dict_find d key = None.
Proof.
  simpl. intros H Hk. apply andb_true_iff in H. destruct H as [H _].
  induction d as [|[k1 v1] t IH]; [reflexivity|].
  simpl in H. apply andb_true_iff in H. destruct H as [H1 Ht].
  simpl. destruct (key_eqb k1 key) eqn:E; [|now apply IH].
  rewrite key_eqb_sym in E. rewrite (key_eqb_trans _ _ _ Hk E) in H1.
  discriminate.
Qed.

Lemma dict_find_remove (d : pydict) (k key : pyval) :
  unique_keys d = true ->
  dict_find (dict_remove d k) key
  = if key_eqb k key then None else dict_find d key.
Proof.
  induction d as [|[k0 v0] t IH]; intros Hu.
  - simpl. now destruct (key_eqb k key).
  - simpl. destruct (key_eqb k0 k) eqn:E.
    + rewrite <- (key_eqb_congr k0 k key E).
      destruct (key_eqb k0 key) eqn:E0; [|reflexivity].
      exact (dict_find_unique t k0 v0 key Hu E0).
    + simpl. simpl in Hu. apply andb_true_iff in Hu.
      rewrite (IH (proj2 Hu)).
      destruct (key_eqb k0 key) eqn:E0; [|reflexivity].
      destruct (key_eqb k key) eqn:E1; [|reflexivity].
      rewrite key_eqb_sym in E1.
      now rewrite (key_eqb_trans _ _ _ E0 E1) in E.
Qed.

Lemma dict_remove_length (d : pydict) (k : pyval) :
  List.length (dict_remove d k)
  = match dict_find d k with
    | Some _ => Nat.pred (List.length d)
    | None => List.length d
    end.
Proof.
  induction d as [|[k0 v0] t IH]; simpl; [reflexivity|].
  destruct (key_eqb k0 k); simpl; [reflexivity|].
  rewrite IH. destruct (dict_find t k) eqn:E; [|reflexivity].
  destruct t; [discriminate | reflexivity].
Qed.

Lemma dispatch_get kv args : get_response kv (request "GET" args) = get kv args.
Proof. reflexivity. Qed.

Lemma dispatch_set kv args : get_response kv (request "SET" args) = set kv args.
Proof. reflexivity. Qed.

Lemma dispatch_delete kv args :
  get_response kv (request "DELETE" args) = delete kv args.
Proof. reflexivity. Qed.

Lemma dispatch_mget kv args :
  get_response kv (request "MGET" args) = mget kv args.
Proof. reflexivity. Qed.

Lemma dispatch_mset kv args :
  get_response kv (request "MSET" args) = mset kv args.
Proof. reflexivity. Qed.

Lemma get_value (kv : pydict) (key : pyval) :
  hashable key = true -> get kv [key] = (kv, Ok (value_of kv key)).
Proof. intros H. unfold get, dict_get. now rewrite H. Qed.

(** X1: SET stores the value under a hashable key and returns 1; a GET of
    that key then returns the value, and a GET of a different key returns
    what it returned before the SET. *)
Theorem set_then_get_returns_value (kv : pydict) (key value : pyval) :
  hashable key = true ->
  let kv' := dict_update kv key value in
  get_response kv (request "SET" [key; value]) = (kv', Ok (VInt 1))
  /\ get_response kv' (request "GET" [key]) = (kv', Ok value)
  /\ (forall other,
        hashable other = true -> key_eqb key other = false ->
        get_response kv' (request "GET" [other])
        = (kv', Ok (value_of kv other))).
Proof.
  intros Hk kv'. split; [|split].
  - rewrite dispatch_set. unfold set, dict_setitem. now rewrite Hk.
  - rewrite dispatch_get, (get_value _ _ Hk). unfold value_of, kv'.
    now rewrite dict_find_update, (key_eqb_refl _ Hk).
  - intros other Ho Hne. rewrite dispatch_get, (get_value _ _ Ho).
    unfold value_of, kv'. now rewrite dict_find_update, Hne.
Qed.

Lemma set_then_get_returns_value_witness :
  get_response (dict_update [] (VBytes (bytes_of "k")) (VInt 7))
    (request "GET" [VBytes (bytes_of "k")])
  = (dict_update [] (VBytes (bytes_of "k")) (VInt 7), Ok (VInt 7)).
Proof.
  apply (set_then_get_returns_value [] (VBytes (bytes_of "k")) (VInt 7)).
  reflexivity.
Defined.

(** X2: on a store that keeps the dict invariant, DELETE of an absent key
    returns 0 and changes nothing; DELETE of a present key returns 1 and
    removes exactly that entry: the store has one entry less, a GET of the
    key returns [None], and every other key keeps its value. *)
Theorem delete_removes_the_key (kv : pydict) (key : pyval) :
  dict_ok kv = true -> hashable key = true ->
  (dict_find kv key = None ->
   get_response kv (request "DELETE" [key]) = (kv, Ok (VInt 0)))
  /\ (dict_find kv key <> None ->
      let kv' := dict_remove kv key in
      get_response kv (request "DELETE" [key]) = (kv', Ok (VInt 1))
      /\ S (List.length kv') = List.length kv
      /\ get_response kv' (request "GET" [key]) = (kv', Ok VNone)
      /\ forall other,
           key_eqb key other = false ->
           value_of kv' other = value_of kv other).
Proof.
  intros Hok Hk. unfold dict_ok in Hok. apply andb_true_iff in Hok.
  destruct Hok as [_ Hu]. split.
  - intros Hnone. rewrite dispatch_delete. unfold delete, dict_contains.
    now rewrite Hk, Hnone.
  - intros Hsome kv'. split; [|split; [|split]].
    + rewrite dispatch_delete. unfold delete, dict_contains. rewrite Hk.
      destruct (dict_find kv key); [reflexivity | contradiction].
    + unfold kv'. rewrite dict_remove_length.
      destruct (dict_find kv key) eqn:E; [|contradiction].
      destruct kv; [discriminate | reflexivity].
    + rewrite dispatch_get, (get_value _ _ Hk). unfold value_of, kv'.
      now rewrite (dict_find_remove _ _ _ Hu), (key_eqb_refl _ Hk).
    + intros other Hne. unfold value_of, kv'.
      now rewrite (dict_find_remove _ _ _ Hu), Hne.
Qed.

Lemma delete_removes_the_key_witness :
  get_response [(VBytes (bytes_of "k"), VInt 7)]
    (request "DELETE" [VBytes (bytes_of "k")])
  = ([], Ok (VInt 1)).
Proof.
  apply (delete_removes_the_key [(VBytes (bytes_of "k"), VInt 7)]
           (VBytes (bytes_of "k"))); [reflexivity | reflexivity | discriminate].
Defined.

Lemma mget_values_hashable (kv : pydict) (keys : list pyval) :
  Forall (fun k => hashable k = true) keys ->
  mget_values kv keys = Ok (map (value_of kv) keys).
Proof.
  induction 1 as [|k t Hk _ IH]; [reflexivity|].
  simpl. unfold dict_get. rewrite Hk. simpl. now rewrite IH.
Qed.

Lemma mget_values_unhashable (kv : pydict) (keys : list pyval) :
  Exists (fun k => hashable k = false) keys ->
  mget_values kv keys = Raise TypeError.
Proof.
  induction keys as [|k t IH]; intros H; [inversion H|].
  simpl. unfold dict_get. destruct (hashable k) eqn:Hk; [|reflexivity].
  simpl. rewrite IH; [reflexivity|].
  inversion H as [? ? H0 | ? ? H0]; subst; [congruence | exact H0].
Qed.

(** X4: MGET never changes the store.  For hashable keys it returns a list
    with one item per key, in the order of the keys: the value stored
    under the key, or [None]; for no key, the empty list.  A key without a
    hash anywhere among the arguments makes the whole call raise
    [TypeError]. *)
Theorem mget_returns_a_value_per_key (kv : pydict) (keys : list pyval) :
  fst (get_response kv (request "MGET" keys)) = kv
  /\ (Forall (fun k => hashable k = true) keys ->
      get_response kv (request "MGET" keys)
      = (kv, Ok (VList (map (value_of kv) keys))))
  /\ (Exists (fun k => hashable k = false) keys ->
      get_response kv (request "MGET" keys) = (kv, Raise TypeError)).
Proof.
  rewrite dispatch_mget. unfold mget. split; [reflexivity|]. split; intros H.
  - now rewrite mget_values_hashable.
  - now rewrite mget_values_unhashable.
Qed.

Lemma mget_returns_a_value_per_key_witness :
  get_response [(VBytes (bytes_of "a"), VInt 1)]
    (request "MGET" [VBytes (bytes_of "a"); VBytes (bytes_of "b")])
  = ([(VBytes (bytes_of "a"), VInt 1)],
     Ok (VList (map (value_of [(VBytes (bytes_of "a"), VInt 1)])
                  [VBytes (bytes_of "a"); VBytes (bytes_of "b")]))).
Proof.
  apply (mget_returns_a_value_per_key [(VBytes (bytes_of "a"), VInt 1)]
           [VBytes (bytes_of "a"); VBytes (bytes_of "b")]).
  repeat constructor.
Defined.

(** X5: MSET with hashable keys stores the pairs of arguments from left to
    right and returns their number; afterwards a key is mapped to the value
    of the last pair that has it, and a key of no pair keeps its value. *)
Theorem mset_then_get_returns_last_value (kv : pydict) (items : list pyval) :
  Forall (fun p => hashable (fst p) = true) (pair_up items) ->
  let kv' := store_pairs kv (pair_up items) in
  get_response kv (request "MSET" items)
  = (kv', Ok (VInt (Z.of_nat (List.length (pair_up items)))))
  /\ forall key,
       hashable key = true ->
       get_response kv' (request "GET" [key])
       = (kv', Ok match dict_find (List.rev (pair_up items)) key with
                  | Some v => v
                  | None => value_of kv key
                  end).
Proof.
  intros Hk kv'. split.
  - rewrite dispatch_mset. unfold mset. now rewrite mset_loop_hashable.
  - intros key Hkey. rewrite dispatch_get, (get_value _ _ Hkey).
    unfold value_of, kv'. rewrite dict_find_store.
    now destruct (dict_find (List.rev (pair_up items)) key).
Qed.

Lemma mset_then_get_returns_last_value_witness :
  get_response []
    (request "MSET" [VBytes (bytes_of "a"); VInt 1;
                     VBytes (bytes_of "a"); VInt 2])
  = (store_pairs []
       (pair_up [VBytes (bytes_of "a"); VInt 1; VBytes (bytes_of "a"); VInt 2]),
     Ok (VInt 2)).
Proof.
  apply (mset_then_get_returns_last_value []
           [VBytes (bytes_of "a"); VInt 1; VBytes (bytes_of "a"); VInt 2]).
  repeat constructor.
Defined.

Lemma method_keeps_invariant (command : bytes) (m : method) (kv : pydict)
    (args : list pyval) :
  lookup_command get_commands command = Some m ->
  dict_ok kv = true -> dict_ok (fst (m kv args)) = true.
Proof.
  unfold get_commands. simpl.
  repeat match goal with
         | |- context [if ?c then _ else _] => destruct c
         end; intros H Hok; inversion H; subst; clear H.
  - unfold get. now destruct args as [|a [|b t]].
  - unfold set. destruct args as [|a [|b [|c t]]]; try exact Hok.
    unfold dict_setitem. destruct (hashable a) eqn:Ha; [|exact Hok].
    now apply dict_ok_update.
  - unfold delete. destruct args as [|a [|b t]]; try exact Hok.
    unfold dict_contains. destruct (hashable a); [|exact Hok].
    destruct (dict_find kv a); [|exact Hok]. now apply dict_ok_remove.
  - unfold flush. now destruct args.
  - exact Hok.
  - unfold mset. pose proof (dict_ok_mset_loop (pair_up args) kv Hok) as H.
    now destruct (mset_loop kv (pair_up args)).
Qed.

Lemma get_response_keeps_invariant (kv : pydict) (data : pyval) :
  dict_ok kv = true -> dict_ok (fst (get_response kv data)) = true.
Proof.
  intros Hok. unfold get_response.
  destruct (match data with
            | VList items => Ok items
            | VBytes b => Ok (map VBytes (bytes_split b))
            | VStr s => Ok (map VStr (str_split s))
            | _ => Raise
                     (CommandError "Request must be list or simple string.")
            end) as [[|first args]|e|]; try exact Hok.
  destruct first; try exact Hok.
  destruct (lookup_command get_commands (bytes_upper b)) as [m|] eqn:Hm;
    [|exact Hok].
  destruct (decode_ascii (bytes_upper b)); try exact Hok.
  eapply method_keeps_invariant; eauto.
Qed.

Lemma respond_store (kv : pydict) (data : pyval) :
  fst (respond kv data) = fst (get_response kv data).
Proof.
  unfold respond. destruct (get_response kv data) as [kv' [resp|e|]];
    try reflexivity.
  now destruct e.
Qed.

(** The store that a pass of the loop leaves is the one it found, or the
    one the dispatcher left. *)
Lemma serve_request_store (kv : pydict) (f : stream) :
  let kv' := match serve_request kv f with
             | Next kv' _ _ => kv'
             | Stop kv' _ => kv'
             end in
  kv' = kv \/ exists data, kv' = fst (get_response kv data).
Proof.
  unfold serve_request.
  destruct (decode f server_side) as [[data f']|e|]; simpl.
  - right. exists data. rewrite <- respond_store.
    destruct (respond kv data) as [kv' [resp|e|]]; simpl; try reflexivity.
    now destruct (write_response resp).
  - left. now destruct e.
  - now left.
Qed.

Lemma serve_keeps_invariant (fuel : nat) : forall kv f,
  dict_ok kv = true -> dict_ok (store (serve fuel kv f)) = true.
Proof.
  induction fuel as [|fuel IH]; intros kv f Hok; [exact Hok|].
  simpl. pose proof (serve_request_store kv f) as H.
  destruct (serve_request kv f) as [kv' f' sent | kv' why]; simpl in *.
  - apply IH. destruct H as [-> | [data ->]]; [exact Hok|].
    now apply get_response_keeps_invariant.
  - destruct H as [-> | [data ->]]; [exact Hok|].
    now apply get_response_keeps_invariant.
Qed.

(** X3: the store keeps the invariant of a dict, hashable keys that are
    pairwise different, through every request, whatever the request and
    whether it returns or raises; so the store a session leaves has it, and
    so has every store reached from the empty one. *)
Theorem store_keeps_dict_invariant (kv : pydict) :
  dict_ok kv = true ->
  (forall data, dict_ok (fst (get_response kv data)) = true)
  /\ (forall socket_file,
        dict_ok (store (connection_handler kv socket_file)) = true).
Proof.
  intros Hok. split.
  - intros data. now apply get_response_keeps_invariant.
  - intros f. now apply serve_keeps_invariant.
Qed.

Lemma store_keeps_dict_invariant_witness :
  dict_ok (fst (get_response [(VBytes (bytes_of "k"), VInt 1)]
                  (request "SET" [VBytes (bytes_of "k"); VInt 2])))
  = true.
Proof.
  apply (proj1 (store_keeps_dict_invariant [(VBytes (bytes_of "k"), VInt 1)]
                  eq_refl)).
Defined.

Lemma method_failure_keeps_store (command : bytes) (m : method)
    (kv kv' : pydict) (args : list pyval) (e : exn) :
  lookup_command get_commands command = Some m ->
  command <> bytes_of "MSET" ->
  m kv args = (kv', Raise e) -> kv' = kv.
Proof.
  unfold get_commands. simpl.
  repeat match goal with
         | |- context [if ?c then _ else _] => destruct c eqn:?
         end; intros H Hne Hm; inversion H; subst; clear H.
  - unfold get in Hm. destruct args as [|a [|b t]]; now inversion Hm.
  - unfold set in Hm. destruct args as [|a [|b [|c t]]];
      try (now inversion Hm).
    destruct (dict_setitem kv a b); now inversion Hm.
  - unfold delete in Hm. destruct args as [|a [|b t]];
      try (now inversion Hm).
    destruct (dict_contains kv a) as [[|]| |]; now inversion Hm.
  - unfold flush in Hm. destruct args; now inversion Hm.
  - unfold mget in Hm. now inversion Hm.
  - match goal with
    | E : bytes_eqb (bytes_of "MSET") command = true |- _ =>
        apply bytes_eqb_eq in E; congruence
    end.
Qed.

(** X6: a request that raises leaves the store as it was, unless it is an
    MSET: the other commands change the store only when they return. *)
Theorem failed_request_keeps_store
    (kv kv' : pydict) (data : pyval) (e : exn) :
  get_response kv data = (kv', Raise e) ->
  kv' = kv
  \/ exists name args,
       request_of data name args /\ bytes_upper name = bytes_of "MSET".
Proof.
  unfold get_response.
  destruct (match data with
            | VList items => Ok items
            | VBytes b => Ok (map VBytes (bytes_split b))
            | VStr s => Ok (map VStr (str_split s))
            | _ => Raise
                     (CommandError "Request must be list or simple string.")
            end) as [[|first args]|e0|] eqn:E;
    try (intros H; inversion H; now left).
  destruct first; try (intros H; inversion H; now left).
  destruct (lookup_command get_commands (bytes_upper b)) as [m|] eqn:Hm.
  - destruct (decode_ascii (bytes_upper b));
      try (intros H; inversion H; now left).
    intros H.
    destruct (list_eq_dec byte_eq_dec (bytes_upper b) (bytes_of "MSET"))
      as [Hmset | Hother].
    + right. exists b, args. split; [|exact Hmset].
      destruct data as [| | line | text | | items' | |]; try discriminate E.
      * right. destruct (bytes_split line) as [|w rest] eqn:Hs;
          [discriminate E|].
        simpl in E. inversion E; subst. exists line, rest. auto.
      * destruct (str_split text); discriminate E.
      * left. now inversion E.
    + left. eapply method_failure_keeps_store; eauto.
  - intros H. left.
    destruct (decode_ascii (bytes_upper b)); now inversion H.
Qed.

Lemma failed_request_keeps_store_witness :
  [(VBytes (bytes_of "k"), VInt 1)] = [(VBytes (bytes_of "k"), VInt 1)]
  \/ exists name args,
       request_of (request "SET" [VList []; VInt 2]) name args
       /\ bytes_upper name = bytes_of "MSET".
Proof.
  apply (failed_request_keeps_store [(VBytes (bytes_of "k"), VInt 1)]
           [(VBytes (bytes_of "k"), VInt 1)]
           (request "SET" [VList []; VInt 2]) TypeError).
  reflexivity.
Defined.

Lemma mset_loop_app (before l : list (pyval * pyval)) : forall kv,
  Forall (fun p => hashable (fst p) = true) before ->
  mset_loop kv (before ++ l) = mset_loop (store_pairs kv before) l.
Proof.
  induction before as [|[k v] t IH]; intros kv H; [reflexivity|].
  inversion H as [|p q Hk Ht]; subst. simpl in Hk.
  simpl. unfold dict_setitem. rewrite Hk. now apply IH.
Qed.

(** X7: MSET is not all-or-nothing.  When the key of a pair has no hash
    and the keys of the pairs before it have, the pairs before it are
    stored, the call raises [TypeError], and the pairs after it are not
    stored. *)
Theorem mset_stops_at_unhashable_key
    (kv : pydict) (items : list pyval)
    (before : list (pyval * pyval)) (k v : pyval)
    (after : list (pyval * pyval)) :
  pair_up items = before ++ (k, v) :: after ->
  Forall (fun p => hashable (fst p) = true) before ->
  hashable k = false ->
  get_response kv (request "MSET" items)
  = (store_pairs kv before, Raise TypeError).
Proof.
  intros Hp Hb Hk. rewrite dispatch_mset. unfold mset.
  rewrite Hp, (mset_loop_app before _ kv Hb). simpl.
  unfold dict_setitem. now rewrite Hk.
Qed.

Lemma mset_stops_at_unhashable_key_witness :
  get_response []
    (request "MSET" [VBytes (bytes_of "a"); VInt 1; VList []; VInt 2;
                     VBytes (bytes_of "b"); VInt 3])
  = (store_pairs [] [(VBytes (bytes_of "a"), VInt 1)], Raise TypeError).
Proof.
  apply (mset_stops_at_unhashable_key []
           [VBytes (bytes_of "a"); VInt 1; VList []; VInt 2;
            VBytes (bytes_of "b"); VInt 3]
           [(VBytes (bytes_of "a"), VInt 1)] (VList []) (VInt 2)
           [(VBytes (bytes_of "b"), VInt 3)]).
  - reflexivity.
  - repeat constructor.
  - reflexivity.
Defined.

(** ** The dispatcher *)

Lemma split_on_blank {A : Type} (blank : A -> bool) (l : list A) :
  forallb blank l = true -> split_on blank [] l = [].
Proof.
  induction l as [|c t IH]; intros H; [reflexivity|].
  simpl in H. apply andb_true_iff in H. destruct H as [Hc Ht].
  simpl. rewrite Hc. now apply IH.
Qed.

(** X8: a request without a command name, the empty list or a line of
    blanks only, fails with the [CommandError] "Missing command"; a request
    that is neither a list nor a line fails with "Request must be list or
    simple string.".  The store is not touched, and the loop makes the
    [Error] with that message its response. *)
Theorem malformed_request_is_command_error (kv : pydict) (data : pyval) :
  (data = VList []
   \/ (exists line, data = VBytes line /\ forallb is_space line = true) ->
   get_response kv data = (kv, Raise (CommandError "Missing command"))
   /\ respond kv data = (kv, Ok (VError (VStr "Missing command"))))
  /\ (match data with
      | VList _ | VBytes _ | VStr _ => False
      | _ => True
      end ->
      get_response kv data
      = (kv, Raise (CommandError "Request must be list or simple string."))
      /\ respond kv data
         = (kv, Ok (VError (VStr "Request must be list or simple string.")))).
Proof.
  split.
  - intros [-> | (line & -> & Hb)].
    + split; reflexivity.
    + unfold respond, get_response, bytes_split.
      rewrite (split_on_blank _ _ Hb). split; reflexivity.
  - intros H. destruct data; try contradiction; split; reflexivity.
Qed.

Lemma malformed_request_is_command_error_witness :
  get_response [] (VBytes (bytes_of "  "))
  = ([], Raise (CommandError "Missing command"))
  /\ respond [] (VBytes (bytes_of "  "))
     = ([], Ok (VError (VStr "Missing command"))).
Proof.
  apply (proj1 (malformed_request_is_command_error []
                  (VBytes (bytes_of "  ")))).
  right. exists (bytes_of "  "). split; reflexivity.
Defined.

Lemma upper_byte_idem (c : byte) : upper_byte (upper_byte c) = upper_byte c.
Proof. destruct c; reflexivity. Qed.

Lemma bytes_upper_idem (l : bytes) :
  bytes_upper (bytes_upper l) = bytes_upper l.
Proof.
  unfold bytes_upper. rewrite map_map. apply map_ext, upper_byte_idem.
Qed.

(** X9: the command name is matched without regard to the case of its
    ASCII letters: a request does what the request with the name in upper
    case does. *)
Theorem command_name_ignores_case
    (kv : pydict) (name : bytes) (args : list pyval) :
  get_response kv (VList (VBytes name :: args))
  = get_response kv (VList (VBytes (bytes_upper name) :: args)).
Proof.
  rewrite (get_response_token kv _ name args) by now left.
  rewrite (get_response_token kv _ (bytes_upper name) args) by now left.
  now rewrite bytes_upper_idem.
Qed.

Lemma lookup_command_some table command m :
  lookup_command table command = Some m -> In command (map fst table).
Proof.
  induction table as [|[name m0] table IH]; simpl; [discriminate|].
  destruct (bytes_eqb name command) eqn:E.
  - apply bytes_eqb_eq in E. auto.
  - auto.
Qed.

Lemma command_names_ascii (command : bytes) :
  In command command_names -> forallb is_ascii command = true.
Proof.
  unfold command_names. simpl.
  intros [<- | [<- | [<- | [<- | [<- | [<- | []]]]]]]; reflexivity.
Qed.

(** X10: a request whose first token holds a byte above 127 is no command,
    and the text of the error cannot be made: the dispatcher raises
    [UnicodeDecodeError], which is no [CommandError]; the loop does not
    catch it, and the session ends without a response. *)
Theorem non_ascii_command_escapes
    (kv : pydict) (data : pyval) (name : bytes) (args : list pyval) :
  request_of data name args ->
  forallb is_ascii name = false ->
  get_response kv data = (kv, Raise UnicodeDecodeError)
  /\ forall socket_file rest,
       decode socket_file server_side = Ok (data, rest) ->
       serve_request kv socket_file = Stop kv (Escaped UnicodeDecodeError).
Proof.
  intros Hreq Hna.
  assert (H : get_response kv data = (kv, Raise UnicodeDecodeError)).
  { rewrite (get_response_token kv data name args Hreq).
    destruct (lookup_command get_commands (bytes_upper name)) as [m|] eqn:Hm.
    - apply lookup_command_some, command_names_ascii in Hm.
      rewrite is_ascii_bytes_upper in Hm. congruence.
    - unfold decode_ascii. now rewrite is_ascii_bytes_upper, Hna. }
  split; [exact H|]. intros f rest Hd.
  unfold serve_request, respond. now rewrite Hd, H.
Qed.

Lemma non_ascii_command_escapes_witness :
  get_response [] (VList [VBytes [xff]]) = ([], Raise UnicodeDecodeError).
Proof.
  apply (non_ascii_command_escapes [] (VList [VBytes [xff]]) [xff] []).
  - now left.
  - reflexivity.
Defined.

Lemma mget_values_raise (kv : pydict) (keys : list pyval) (e : exn) :
  mget_values kv keys = Raise e -> e = TypeError.
Proof.
  induction keys as [|a t IH]; simpl; [discriminate|].
  unfold dict_get. destruct (hashable a); simpl; [|now inversion 1].
  destruct (mget_values kv t); simpl; try discriminate.
  intros H. apply IH. now inversion H.
Qed.

Lemma method_raises_TypeError (command : bytes) (m : method)
    (kv kv' : pydict) (args : list pyval) (e : exn) :
  lookup_command get_commands command = Some m ->
  m kv args = (kv', Raise e) -> e = TypeError.
Proof.
  unfold get_commands. simpl.
  repeat match goal with
         | |- context [if ?c then _ else _] => destruct c
         end; intros H Hm; inversion H; subst; clear H.
  - unfold get, dict_get in Hm. destruct args as [|a [|b t]];
      try (now inversion Hm).
    destruct (hashable a); now inversion Hm.
  - unfold set, dict_setitem in Hm. destruct args as [|a [|b [|c t]]];
      try (now inversion Hm).
    destruct (hashable a); now inversion Hm.
  - unfold delete, dict_contains in Hm. destruct args as [|a [|b t]];
      try (now inversion Hm).
    destruct (hashable a); [|now inversion Hm].
    destruct (dict_find kv a); now inversion Hm.
  - unfold flush in Hm. destruct args; now inversion Hm.
  - unfold mget in Hm.
    destruct (mget_values kv args) as [l|e1|] eqn:E; simpl in Hm;
      inversion Hm; subst. eapply mget_values_raise; eauto.
  - unfold mset in Hm.
    assert (H : forall data kv0 kv1 e0,
              mset_loop kv0 data = (kv1, Raise e0) -> e0 = TypeError).
    { induction data as [|[k v] t IH]; intros kv0 kv1 e0 H0;
        [discriminate H0|].
      simpl in H0. unfold dict_setitem in H0.
      destruct (hashable k); [eauto | now inversion H0]. }
    destruct (mset_loop kv (pair_up args)) as [kv1 [u|e1|]] eqn:E;
      simpl in Hm; inversion Hm; subst. eauto.
Qed.

Lemma get_response_raises (kv : pydict) (data : pyval) (kv' : pydict)
    (e : exn) :
  get_response kv data = (kv', Raise e) ->
  (exists message, e = CommandError message)
  \/ e = TypeError \/ e = AttributeError \/ e = UnicodeDecodeError.
Proof.
  unfold get_response.
  destruct (match data with
            | VList items => Ok items
            | VBytes b => Ok (map VBytes (bytes_split b))
            | VStr s => Ok (map VStr (str_split s))
            | _ => Raise
                     (CommandError "Request must be list or simple string.")
            end) as [[|first args]|e0|] eqn:E.
  - intros H. inversion H. left. eauto.
  - destruct first; try (intros H; inversion H; tauto).
    destruct (lookup_command get_commands (bytes_upper b)) as [m|] eqn:Hm.
    + destruct (decode_ascii_outcome (bytes_upper b)) as [[s H] | H];
        rewrite H.
      * intros Hr. right. left. eapply method_raises_TypeError; eauto.
      * intros Hr. inversion Hr. tauto.
    + destruct (decode_ascii_outcome (bytes_upper b)) as [[s H] | H];
        rewrite H; simpl; intros Hr; inversion Hr; [left; eauto | tauto].
  - intros H. inversion H; subst.
    destruct data; inversion E; left; eauto.
  - intros H. inversion H.
Qed.

(** X11: the exceptions of the dispatcher.  Whatever the request, what
    [get_response] raises is a [CommandError], the [TypeError] of a call or
    of the store, the [AttributeError] of a first token that is no bytes,
    or the [UnicodeDecodeError] of a name that is no ASCII; a list whose
    first item is no bytes always raises the [AttributeError]. *)
Theorem dispatcher_exceptions (kv : pydict) :
  (forall data kv' e,
     get_response kv data = (kv', Raise e) ->
     (exists message, e = CommandError message)
     \/ e = TypeError \/ e = AttributeError \/ e = UnicodeDecodeError)
  /\ (forall first args,
        match first with VBytes _ => False | _ => True end ->
        get_response kv (VList (first :: args)) = (kv, Raise AttributeError)).
Proof.
  split.
  - intros data kv' e. apply get_response_raises.
  - intros first args H. destruct first; try contradiction; reflexivity.
Qed.

Lemma dispatcher_exceptions_witness :
  (exists message, TypeError = CommandError message)
  \/ TypeError = TypeError \/ TypeError = AttributeError
  \/ TypeError = UnicodeDecodeError.
Proof.
  apply (proj1 (dispatcher_exceptions []) (request "GET" []) [] TypeError).
  reflexivity.
Defined.

(** ** The decoder *)

(** X12: every first byte other than the six tags is refused with the
    [CommandError] "bad request", whatever follows it and in either mode. *)
Theorem unknown_tag_is_bad_request (c : byte) (t : stream) (side : Z) :
  ~ In c [x2b; x2d; x3a; x24; x2a; x25] ->
  decode (c :: t) side = Raise (CommandError "bad request").
Proof.
  intros H. rewrite decode_cons.
  destruct c; try reflexivity; exfalso; apply H; simpl; tauto.
Qed.

Lemma unknown_tag_is_bad_request_witness :
  decode (bytes_of "GET k") server_side = Raise (CommandError "bad request").
Proof.
  apply (unknown_tag_is_bad_request "G"%byte (bytes_of "ET k") server_side).
  simpl. intuition discriminate.
Defined.

Lemma decode_bulk (t : stream) (side : Z) :
  decode (x24 :: t) side = handle_string t side.
Proof. now rewrite decode_cons. Qed.

Lemma handle_string_number (n : Z) (rest : stream) (side : Z) :
  handle_string (format_d n ++ CRLF ++ rest) side
  = if n =? -1 then Ok (VNone, rest)
    else
      '(chunk, socket_file) <- read (n + 2) rest ;;
      if side =? server_side
      then Ok (VBytes (drop_last2 chunk), socket_file)
      else
        data <- decode_ascii (drop_last2 chunk) ;;
        Ok (VStr data, socket_file).
Proof.
  unfold handle_string. destruct (read_number n rest) as [Hl Hi].
  now rewrite Hl, Hi.
Qed.

(** X13: the length field of a bulk string.  The length -1 gives [None]
    and reads nothing more, in either mode.  The length -2 gives the empty
    bytes and reads nothing more; the length -3 takes all the input that is
    left, less its last two bytes; a length below -3 that, with the two
    added to it, is a size the reader accepts raises [ValueError]. *)
Theorem bulk_string_negative_length (rest : stream) (side : Z) :
  decode (x24 :: format_d (-1) ++ CRLF ++ rest) side = Ok (VNone, rest)
  /\ decode (x24 :: format_d (-2) ++ CRLF ++ rest) server_side
     = Ok (VBytes [], rest)
  /\ decode (x24 :: format_d (-3) ++ CRLF ++ rest) server_side
     = Ok (VBytes (drop_last2 rest), [])
  /\ forall n, PY_SSIZE_T_MIN <= n + 2 -> n < -3 ->
       decode (x24 :: format_d n ++ CRLF ++ rest) side = Raise ValueError.
Proof.
  split; [|split; [|split]].
  - now rewrite decode_bulk, handle_string_number.
  - now rewrite decode_bulk, handle_string_number.
  - now rewrite decode_bulk, handle_string_number.
  - intros n _ Hn. rewrite decode_bulk, handle_string_number.
    destruct (Z.eqb_spec n (-1)) as [E|E]; [lia|].
    unfold read. destruct (Z.ltb_spec (n + 2) (-1)) as [E1|E1]; [|lia].
    reflexivity.
Qed.

Lemma bulk_string_negative_length_witness :
  decode (x24 :: format_d (-4) ++ CRLF ++ bytes_of "abc") server_side
  = Raise ValueError.
Proof.
  apply (proj2 (proj2 (proj2
    (bulk_string_negative_length (bytes_of "abc") server_side)))).
  - unfold PY_SSIZE_T_MIN. lia.
  - lia.
Defined.

(** X14: the two bytes after the payload of a bulk string are read and
    dropped without a look at them: whatever they are, the payload is
    returned and the input goes on after them. *)
Theorem bulk_terminator_is_not_checked
    (payload : bytes) (a b : byte) (rest : stream) :
  decode (x24 :: format_d (Z.of_nat (List.length payload)) ++ CRLF
            ++ payload ++ [a; b] ++ rest) server_side
  = Ok (VBytes payload, rest).
Proof.
  rewrite decode_bulk, handle_string_number.
  destruct (Z.eqb_spec (Z.of_nat (List.length payload)) (-1)) as [E|E];
    [lia|].
  unfold read.
  destruct (Z.ltb_spec (Z.of_nat (List.length payload) + 2) (-1)) as [E1|E1];
    [lia|].
  destruct (Z.eqb_spec (Z.of_nat (List.length payload) + 2) (-1)) as [E2|E2];
    [lia|].
  replace (Z.to_nat (Z.of_nat (List.length payload) + 2))
    with (List.length (payload ++ [a; b]))
    by (rewrite length_app; simpl; lia).
  rewrite app_assoc, firstn_length_app, skipn_length_app. cbn [bind].
  rewrite Z.eqb_refl. f_equal. f_equal. f_equal.
  unfold drop_last2. rewrite length_app. simpl List.length.
  replace (List.length payload + 2 - 2)%nat with (List.length payload)
    by lia.
  apply firstn_length_app.
Qed.

(** X15: an array or a map with a count of zero or below has no elements:
    the empty list or the empty dict is returned and nothing after the
    count line is read. *)
Theorem nonpositive_count_is_empty (n : Z) (rest : stream) (side : Z) :
  n <= 0 ->
  decode (x2a :: format_d n ++ CRLF ++ rest) side = Ok (VList [], rest)
  /\ decode (x25 :: format_d n ++ CRLF ++ rest) side = Ok (VDict [], rest).
Proof.
  intros Hn. destruct (read_number n rest) as [Hl Hi]. split.
  - rewrite decode_array. unfold handle_array. rewrite Hl, Hi. cbn [bind].
    replace (Z.to_nat n) with 0%nat by lia. reflexivity.
  - rewrite decode_map. unfold handle_dict. rewrite Hl, Hi. cbn [bind].
    replace (Z.to_nat (n * 2)) with 0%nat by lia. reflexivity.
Qed.

Lemma nonpositive_count_is_empty_witness :
  decode (x2a :: format_d (-5) ++ CRLF ++ bytes_of ":1") server_side
  = Ok (VList [], bytes_of ":1").
Proof.
  apply (nonpositive_count_is_empty (-5) (bytes_of ":1") server_side). lia.
Defined.

(** A line ends at the first LF. *)
Lemma readline_LF (l : bytes) (rest : stream) :
  ~ In LF l -> readline (l ++ LF :: rest) = (l ++ [LF], rest).
Proof.
  induction l as [|c l IH]; intros H; [reflexivity|].
  simpl app. rewrite readline_other by (intros ->; apply H; now left).
  rewrite IH by (intros Hin; apply H; now right). reflexivity.
Qed.

Lemma rstrip_tail (l tail : bytes) :
  Forall (fun c => is_crlf c = false) l ->
  forallb is_crlf tail = true ->
  rstrip is_crlf (l ++ tail) = l.
Proof.
  intros Hl Ht.
  assert (Hnil : rstrip is_crlf tail = []).
  { induction tail as [|c t IH]; [reflexivity|].
    simpl in Ht. apply andb_true_iff in Ht. simpl.
    now rewrite (IH (proj2 Ht)), (proj1 Ht). }
  induction Hl as [|c l Hc _ IH]; [exact Hnil|].
  simpl app. simpl rstrip. rewrite IH, Hc. now destruct l.
Qed.

Lemma plain_not_LF (l : bytes) :
  Forall (fun c => is_crlf c = false) l -> ~ In LF l.
Proof.
  intros H Hin. rewrite Forall_forall in H. apply H in Hin. discriminate.
Qed.

(** The line of a simple string or an error: text without CR or LF, any
    number of CRs, and the LF. *)
Lemma read_text_line (text : bytes) (k : nat) (rest : stream) :
  Forall (fun c => is_crlf c = false) text ->
  readline (text ++ repeat CR k ++ LF :: rest)
  = (text ++ repeat CR k ++ [LF], rest)
  /\ rstrip is_crlf (text ++ repeat CR k ++ [LF]) = text.
Proof.
  intros Ht. split.
  - rewrite !app_assoc. apply readline_LF.
    intros Hin. apply in_app_or in Hin. destruct Hin as [Hin | Hin].
    + now apply (plain_not_LF text Ht).
    + apply repeat_spec in Hin. discriminate.
  - apply rstrip_tail; [exact Ht|].
    rewrite forallb_app. simpl. rewrite andb_true_r.
    induction k; simpl; auto.
Qed.

Lemma text_line_decode (text : bytes) (k : nat) (rest : stream) (side : Z) :
  Forall (fun c => is_crlf c = false) text ->
  let line := text ++ repeat CR k ++ LF :: rest in
  decode (x2b :: line) side
  = (if side =? server_side then Ok (VBytes text, rest)
     else data <- decode_ascii text ;; Ok (VStr data, rest))
  /\ decode (x2d :: line) side
     = (if side =? server_side then Ok (VError (VBytes text), rest)
        else data <- decode_ascii text ;; Ok (VError (VStr data), rest)).
Proof.
  intros Ht line. destruct (read_text_line text k rest Ht) as [Hl Hs].
  split; rewrite decode_cons; simpl handlers; cbv beta iota.
  - unfold handle_simple_string, line. now rewrite Hl, Hs.
  - unfold handle_error, line. now rewrite Hl, Hs.
Qed.

(** X16: simple strings and errors.  The text of the line ends at the
    first LF, and the CRs before the LF, however many, also none, are
    dropped.  In server-side mode the text is returned as bytes, for ['+'],
    or as the message of an [Error], for ['-'].  In every other mode it is
    returned as a [str] when it is ASCII, and raises [UnicodeDecodeError]
    when it is not. *)
Theorem text_line_by_mode (text : bytes) (k : nat) (rest : stream) :
  Forall (fun c => is_crlf c = false) text ->
  let line := text ++ repeat CR k ++ LF :: rest in
  decode (x2b :: line) server_side = Ok (VBytes text, rest)
  /\ decode (x2d :: line) server_side = Ok (VError (VBytes text), rest)
  /\ forall side, side <> server_side ->
       (forallb is_ascii text = true ->
        decode (x2b :: line) side = Ok (VStr (string_of_list_byte text), rest)
        /\ decode (x2d :: line) side
           = Ok (VError (VStr (string_of_list_byte text)), rest))
       /\ (forallb is_ascii text = false ->
           decode (x2b :: line) side = Raise UnicodeDecodeError
           /\ decode (x2d :: line) side = Raise UnicodeDecodeError).
Proof.
  intros Ht line.
  assert (Hp : forall side,
            decode (x2b :: line) side
            = if side =? server_side then Ok (VBytes text, rest)
              else data <- decode_ascii text ;; Ok (VStr data, rest))
    by (intros side; apply (text_line_decode text k rest side Ht)).
  assert (Hm : forall side,
            decode (x2d :: line) side
            = if side =? server_side then Ok (VError (VBytes text), rest)
              else data <- decode_ascii text ;; Ok (VError (VStr data), rest))
    by (intros side; apply (text_line_decode text k rest side Ht)).
  split; [now rewrite Hp|]. split; [now rewrite Hm|].
  intros side Hside. rewrite Hp, Hm.
  destruct (Z.eqb_spec side server_side) as [E|E]; [contradiction|].
  unfold decode_ascii. split; intros Ha; rewrite Ha; split; reflexivity.
Qed.

Lemma text_line_by_mode_witness :
  decode (x2b :: bytes_of "OK" ++ repeat CR 1 ++ LF :: []) server_side
  = Ok (VBytes (bytes_of "OK"), []).
Proof.
  apply (text_line_by_mode (bytes_of "OK") 1 []).
  repeat constructor.
Defined.

Lemma scalar_server_mode (self : handler) (c : byte) (h : handler)
    (f : stream) :
  handlers self [c] = Some h -> is_scalar_tag c = true ->
  h f server_side <> Raise UnicodeDecodeError.
Proof.
  destruct c; simpl; intros H Hs; try discriminate; inversion H; subst.
  - unfold handle_string. destruct (readline f) as [line rest].
    destruct (py_int_outcome (rstrip is_crlf line)) as [[n E] | E]; rewrite E;
      simpl; [|discriminate].
    destruct (n =? -1); [discriminate|].
    destruct (read_outcome (n + 2) rest) as [[[chunk rest'] E'] | E'];
      rewrite E'; discriminate.
  - unfold handle_simple_string. destruct (readline f). discriminate.
  - unfold handle_error. destruct (readline f). discriminate.
  - unfold handle_integer. destruct (readline f) as [line rest].
    destruct (py_int_outcome (rstrip is_crlf line)) as [[n E] | E]; rewrite E;
      discriminate.
Qed.

Lemma handle_request_exceptions (fuel : nat) (side : Z) : forall f e,
  handle_request fuel f side = Raise e ->
  decoder_exn e /\ (side = server_side -> e <> UnicodeDecodeError).
Proof.
  unfold decoder_exn.
  induction fuel as [|fuel IH]; intros f e H; [discriminate|].
  destruct f as [|c t].
  - inversion H. split; [tauto | discriminate].
  - rewrite handle_request_tag in H.
    pose proof (handlers_cases (handle_request fuel) c) as Hc.
    destruct (handlers (handle_request fuel) [c]) as [h|] eqn:Hh.
    + destruct Hc as [[Hs Hc] | [[_ ->] | [_ ->]]].
      * split.
        { specialize (Hc t side). rewrite H in Hc.
          destruct Hc as [(v & f' & E & _) | [E | E]]; inversion E; tauto. }
        { intros -> ->.
          exact (scalar_server_mode _ c h t Hh Hs H). }
      * apply handle_array_Raise in H. destruct H as [-> | [f0 H]];
          [split; [tauto | discriminate] | eauto].
      * apply handle_dict_Raise in H. destruct H as [-> | [-> | [f0 H]]];
          [split; [tauto | discriminate] | split; [tauto | discriminate]
           | eauto].
    + inversion H. split; [tauto | discriminate].
Qed.

(** X17: what the decoder does not raise.  The [KeyError] of the table
    of handlers never leaves [handle_request]: the [try] of lines 38-42
    turns it into a [CommandError], and that is the only [CommandError] of
    the decoder, with the message "bad request".  In server-side mode
    nothing is decoded as text, so whatever the bytes of the request, the
    decoder does not raise [UnicodeDecodeError]. *)
Theorem decoder_exceptions (socket_file : stream) (side : Z) (e : exn) :
  decode socket_file side = Raise e ->
  e <> KeyError
  /\ (forall message,
        e = CommandError message -> message = "bad request"%string)
  /\ (side = server_side -> e <> UnicodeDecodeError).
Proof.
  intros H. destruct (handle_request_exceptions _ _ _ _ H) as [He Hs].
  split; [|split; [|exact Hs]].
  - destruct He as [-> | [-> | [-> | [-> | ->]]]]; discriminate.
  - intros message ->.
    destruct He as [E | [E | [E | [E | E]]]]; try discriminate E.
    now inversion E.
Qed.

Lemma decoder_exceptions_witness :
  CommandError "bad request" <> KeyError
  /\ (forall message,
        CommandError "bad request" = CommandError message ->
        message = "bad request"%string)
  /\ (server_side = server_side ->
      CommandError "bad request" <> UnicodeDecodeError).
Proof.
  apply (decoder_exceptions (bytes_of "ping") server_side
           (CommandError "bad request")).
  reflexivity.
Defined.

Lemma read_prefix (size : Z) (f chunk rest : stream) :
  read size f = Ok (chunk, rest) -> f = chunk ++ rest.
Proof.
  unfold read. destruct (size <? -1); [discriminate|].
  destruct (size =? -1); intros H; inversion H; subst.
  - now rewrite app_nil_r.
  - now rewrite firstn_skipn.
Qed.

Lemma after_readline (f : stream) (consumed rest : stream) :
  snd (readline f) = consumed ++ rest ->
  f = (fst (readline f) ++ consumed) ++ rest.
Proof.
  intros H. rewrite <- app_assoc, <- H. apply readline_split.
Qed.

Lemma comprehension_prefix (p : stream -> result (pyval * stream)) (k : nat) :
  reads_prefix p -> reads_prefix (comprehension k p).
Proof.
  intros Hp. induction k as [|k IH]; intros f l f' H; simpl in H.
  - inversion H; subst. now exists [].
  - destruct (p f) as [[a f1]| |] eqn:E1; simpl in H; try discriminate.
    destruct (comprehension k p f1) as [[l1 f2]| |] eqn:E2; simpl in H;
      try discriminate.
    inversion H; subst. destruct (Hp _ _ _ E1) as [c1 ->].
    destruct (IH _ _ _ E2) as [c2 ->]. exists (c1 ++ c2).
    now rewrite app_assoc.
Qed.

Lemma handle_simple_string_prefix side :
  reads_prefix (fun f => handle_simple_string f side).
Proof.
  intros f v f'. unfold handle_simple_string.
  pose proof (readline_split f) as Hf.
  destruct (readline f) as [line rest]. simpl in Hf.
  destruct (side =? server_side).
  - intros H. inversion H; subst. eauto.
  - destruct (decode_ascii (rstrip is_crlf line)); simpl; try discriminate.
    intros H. inversion H; subst. eauto.
Qed.

Lemma handle_error_prefix side : reads_prefix (fun f => handle_error f side).
Proof.
  intros f v f'. unfold handle_error.
  pose proof (readline_split f) as Hf.
  destruct (readline f) as [line rest]. simpl in Hf.
  destruct (side =? server_side).
  - intros H. inversion H; subst. eauto.
  - destruct (decode_ascii (rstrip is_crlf line)); simpl; try discriminate.
    intros H. inversion H; subst. eauto.
Qed.

Lemma handle_integer_prefix side :
  reads_prefix (fun f => handle_integer f side).
Proof.
  intros f v f'. unfold handle_integer.
  pose proof (readline_split f) as Hf.
  destruct (readline f) as [line rest]. simpl in Hf.
  destruct (py_int (rstrip is_crlf line)); simpl; try discriminate.
  intros H. inversion H; subst. eauto.
Qed.

Lemma handle_string_prefix side : reads_prefix (fun f => handle_string f side).
Proof.
  intros f v f'. unfold handle_string.
  pose proof (after_readline f) as Hf.
  destruct (readline f) as [line rest]. simpl in Hf.
  destruct (py_int (rstrip is_crlf line)) as [n| |]; simpl; try discriminate.
  destruct (n =? -1).
  - intros H. inversion H; subst. exists (line ++ []). now apply Hf.
  - destruct (read (n + 2) rest) as [[chunk rest']| |] eqn:Hr; simpl;
      try discriminate.
    apply read_prefix in Hr.
    destruct (side =? server_side).
    + intros H. inversion H; subst. eauto.
    + destruct (decode_ascii (drop_last2 chunk)); simpl; try discriminate.
      intros H. inversion H; subst. eauto.
Qed.

Lemma handle_array_prefix (self : handler) (side : Z) :
  reads_prefix (fun f => self f side) ->
  reads_prefix (fun f => handle_array self f side).
Proof.
  intros Hs f v f' H. apply handle_array_Ok in H.
  destruct H as (n & items & _ & Hc & _).
  apply (comprehension_prefix _ _ Hs) in Hc. destruct Hc as [c Hc].
  exists (fst (readline f) ++ c). apply after_readline, Hc.
Qed.

Lemma handle_dict_prefix (self : handler) (side : Z) :
  reads_prefix (fun f => self f side) ->
  reads_prefix (fun f => handle_dict self f side).
Proof.
  intros Hs f v f' H. apply handle_dict_Ok in H.
  destruct H as (n & elements & d & _ & Hc & _).
  apply (comprehension_prefix _ _ Hs) in Hc. destruct Hc as [c Hc].
  exists (fst (readline f) ++ c). apply after_readline, Hc.
Qed.

Lemma handle_request_prefix (fuel : nat) (side : Z) :
  reads_prefix (fun f => handle_request fuel f side).
Proof.
  induction fuel as [|fuel IH]; intros f v f' H; [discriminate|].
  destruct f as [|c t]; [discriminate|].
  rewrite handle_request_tag in H.
  assert (Hc : exists consumed, t = consumed ++ f').
  { destruct c; simpl in H; try discriminate H.
    - exact (handle_string_prefix side _ _ _ H).
    - exact (handle_dict_prefix _ side IH _ _ _ H).
    - exact (handle_array_prefix _ side IH _ _ _ H).
    - exact (handle_simple_string_prefix side _ _ _ H).
    - exact (handle_error_prefix side _ _ _ H).
    - exact (handle_integer_prefix side _ _ _ H). }
  destruct Hc as [consumed ->]. now exists (c :: consumed).
Qed.

(** X18: a call of the decoder that returns has read a prefix of the
    input, at least the tag, and hands back the rest untouched: the input
    is what it read followed by what it left. *)
Theorem decoder_reads_a_prefix
    (socket_file : stream) (side : Z) (v : pyval) (rest : stream) :
  decode socket_file side = Ok (v, rest) ->
  exists consumed, consumed <> [] /\ socket_file = consumed ++ rest.
Proof.
  intros H. pose proof (decode_reads _ _ _ _ H) as Hlen.
  apply handle_request_prefix in H. destruct H as [consumed ->].
  exists consumed. split; [|reflexivity].
  intros ->. simpl in Hlen. lia.
Qed.

Lemma decoder_reads_a_prefix_witness :
  exists consumed,
    consumed <> [] /\ bytes_of ":12" ++ CRLF ++ bytes_of "+x" = consumed
                                                               ++ bytes_of "+x".
Proof.
  apply (decoder_reads_a_prefix (bytes_of ":12" ++ CRLF ++ bytes_of "+x")
           server_side (VInt 12) (bytes_of "+x")).
  reflexivity.
Defined.

(** ** The encoder *)

Lemma write_tuple (items : list pyval) :
  _write (VTuple items) = _write (VList items).
Proof. reflexivity. Qed.

Lemma write_items_errors (items : list pyval) :
  Forall (fun v =>
            (has_error v = false -> exists wire, _write v = Ok wire)
            /\ (has_error v = true -> _write v = Raise NameError)) items ->
  (existsb has_error items = false -> exists body, write_items items = Ok body)
  /\ (existsb has_error items = true -> write_items items = Raise NameError).
Proof.
  induction 1 as [|a t [Hok Herr] _ [IHok IHerr]]; simpl.
  - split; [eauto | discriminate].
  - destruct (has_error a); simpl.
    + split; [discriminate|]. intros _. now rewrite Herr.
    + destruct (Hok eq_refl) as [w Hw]. rewrite Hw. simpl. split; intros Ht.
      * destruct (IHok Ht) as [body Hb]. rewrite Hb. simpl. eauto.
      * now rewrite (IHerr Ht).
Qed.

Lemma write_entries_errors (entries : list (pyval * pyval)) :
  Forall (fun e =>
            ((has_error (fst e) = false ->
              exists wire, _write (fst e) = Ok wire)
             /\ (has_error (fst e) = true -> _write (fst e) = Raise NameError))
            /\ ((has_error (snd e) = false ->
                 exists wire, _write (snd e) = Ok wire)
                /\ (has_error (snd e) = true ->
                    _write (snd e) = Raise NameError))) entries ->
  (existsb (fun e => has_error (fst e) || has_error (snd e)) entries = false ->
   exists body, write_entries entries = Ok body)
  /\ (existsb (fun e => has_error (fst e) || has_error (snd e)) entries
      = true ->
      write_entries entries = Raise NameError).
Proof.
  induction 1 as [|[k x] t [[Hkok Hkerr] [Hxok Hxerr]] _ [IHok IHerr]];
    simpl in *.
  - split; [eauto | discriminate].
  - destruct (has_error k); simpl.
    + split; [discriminate|]. intros _. now rewrite Hkerr.
    + destruct (Hkok eq_refl) as [wk Hwk]. rewrite Hwk. simpl.
      destruct (has_error x); simpl.
      * split; [discriminate|]. intros _. now rewrite Hxerr.
      * destruct (Hxok eq_refl) as [wx Hwx]. rewrite Hwx. simpl.
        split; intros Ht.
        { destruct (IHok Ht) as [body Hb]. rewrite Hb. simpl. eauto. }
        { now rewrite (IHerr Ht). }
Qed.

Lemma write_errors (v : pyval) :
  (has_error v = false -> exists wire, _write v = Ok wire)
  /\ (has_error v = true -> _write v = Raise NameError).
Proof.
  induction v as [| n | b | s | m IH | items IH | items IH | entries IH]
    using pyval_induction;
    try (split; [intros _; eexists; reflexivity | discriminate]).
  - split; [discriminate | reflexivity].
  - rewrite write_list. destruct (write_items_errors items IH) as [Hok Herr].
    simpl has_error. split; intros H.
    + destruct (Hok H) as [body Hb]. rewrite Hb. simpl. eauto.
    + now rewrite (Herr H).
  - rewrite write_tuple, write_list.
    destruct (write_items_errors items IH) as [Hok Herr].
    simpl has_error. split; intros H.
    + destruct (Hok H) as [body Hb]. rewrite Hb. simpl. eauto.
    + now rewrite (Herr H).
  - rewrite write_dict.
    destruct (write_entries_errors entries IH) as [Hok Herr].
    simpl has_error. split; intros H.
    + destruct (Hok H) as [body Hb]. rewrite Hb. simpl. eauto.
    + now rewrite (Herr H).
Qed.

(** X19: an [Error] cannot be sent, alone or inside another value.  A
    value that holds an [Error] at whatever depth, as an item of a list or
    a tuple or as a key or a value of a dict, is not written: neither
    [_write] nor [write_response] returns for it, so none of its bytes
    reaches the socket. *)
Theorem encoder_writes_no_error (v : pyval) :
  has_error v = true ->
  forall wire, _write v <> Ok wire /\ write_response v <> Ok wire.
Proof.
  intros H wire. unfold write_response.
  rewrite (proj2 (write_errors v) H). split; discriminate.
Qed.

(** A list with an [Error] as its second item is not written as the array
    of an integer and an error line. *)
Lemma encoder_writes_no_error_witness :
  _write (VList [VInt 1; VError (VStr "oops")])
  <> Ok (bytes_of "*2" ++ CRLF ++ bytes_of ":1" ++ CRLF
           ++ bytes_of "-oops" ++ CRLF)
  /\ write_response (VList [VInt 1; VError (VStr "oops")])
     <> Ok (bytes_of "*2" ++ CRLF ++ bytes_of ":1" ++ CRLF
              ++ bytes_of "-oops" ++ CRLF).
Proof.
  apply (encoder_writes_no_error (VList [VInt 1; VError (VStr "oops")])).
  reflexivity.
Defined.

Lemma write_starts_with_tag (v : pyval) (wire : bytes) :
  _write v = Ok wire -> written_tag wire.
Proof.
  unfold written_tag.
  destruct v as [| n | b | s | m | items | items | entries].
  - intros H. inversion H. do 2 eexists. split; [reflexivity|]. simpl. tauto.
  - intros H. inversion H. do 2 eexists. split; [reflexivity|]. simpl. tauto.
  - intros H. inversion H. do 2 eexists. split; [reflexivity|]. simpl. tauto.
  - intros H. inversion H. do 2 eexists. split; [reflexivity|]. simpl. tauto.
  - discriminate.
  - rewrite write_list. destruct (write_items items); simpl; try discriminate.
    intros H. inversion H. do 2 eexists. split; [reflexivity|]. simpl. tauto.
  - rewrite write_tuple, write_list.
    destruct (write_items items); simpl; try discriminate.
    intros H. inversion H. do 2 eexists. split; [reflexivity|]. simpl. tauto.
  - rewrite write_dict. destruct (write_entries entries); simpl;
      try discriminate.
    intros H. inversion H. do 2 eexists. split; [reflexivity|]. simpl. tauto.
Qed.

Lemma serve_request_sent (kv kv' : pydict) (f f' : stream) (sent : bytes) :
  serve_request kv f = Next kv' f' sent ->
  exists resp, write_response resp = Ok sent.
Proof.
  unfold serve_request.
  destruct (decode f server_side) as [[data f1]|e|]; try discriminate.
  - destruct (respond kv data) as [kv1 [resp|e|]]; try discriminate.
    destruct (write_response resp) as [w|e|] eqn:Hw; try discriminate.
    intros H. inversion H; subst. eauto.
  - now destruct e.
Qed.

Lemma serve_written_tags (fuel : nat) : forall kv f,
  Forall written_tag (written (serve fuel kv f)).
Proof.
  induction fuel as [|fuel IH]; intros kv f; [constructor|].
  simpl. destruct (serve_request kv f) as [kv' f' sent | kv' why] eqn:E;
    simpl; [|constructor].
  constructor; [|apply IH].
  destruct (serve_request_sent _ _ _ _ _ E) as [resp Hw].
  exact (write_starts_with_tag resp sent Hw).
Qed.

(** X20: whatever the requests, every response that a session writes
    starts with one of the tags [$], [:], [*] and [%]: the server never
    sends a simple string and never sends an error. *)
Theorem server_never_sends_an_error (kv : pydict) (socket_file : stream) :
  Forall written_tag (written (connection_handler kv socket_file)).
Proof. apply serve_written_tags. Qed.






(** ** Sessions *)

Lemma serve_budget (fuel : nat) : forall fuel' kv f,
  (List.length f < fuel)%nat -> (List.length f < fuel')%nat ->
  serve fuel kv f = serve fuel' kv f.
Proof.
  induction fuel as [|fuel IH]; intros fuel' kv f Hf Hf'; [lia|].
  destruct fuel' as [|fuel']; [lia|].
  simpl. pose proof (serve_request_outcome kv f) as H.
  destruct (serve_request kv f) as [kv' f' sent | kv' why]; [|reflexivity].
  now rewrite (IH fuel' kv' f') by lia.
Qed.

Lemma connection_handler_next kv f kv' f' sent :
  serve_request kv f = Next kv' f' sent ->
  connection_handler kv f
  = {| store := store (connection_handler kv' f');
       written := sent :: written (connection_handler kv' f');
       ending := ending (connection_handler kv' f') |}.
Proof.
  intros H. unfold connection_handler. simpl. rewrite H.
  pose proof (serve_request_outcome kv f) as Ho. rewrite H in Ho.
  now rewrite (serve_budget (List.length f) (S (List.length f')) kv' f')
    by lia.
Qed.

(** X22: requests on one connection are served in the order of the input,
    each on the store that the one before it left.  When a request is
    decoded, answered and written, the session is that response followed by
    the session on the rest of the input and the new store; when the input
    ends there, the session is closed. *)
Theorem session_serves_requests_in_order
    (kv kv' : pydict) (socket_file rest : stream) (data resp : pyval)
    (sent : bytes) :
  decode socket_file server_side = Ok (data, rest) ->
  get_response kv data = (kv', Ok resp) ->
  write_response resp = Ok sent ->
  connection_handler kv socket_file
  = {| store := store (connection_handler kv' rest);
       written := sent :: written (connection_handler kv' rest);
       ending := ending (connection_handler kv' rest) |}
  /\ (rest = [] ->
      connection_handler kv socket_file
      = {| store := kv'; written := [sent]; ending := Closed |}).
Proof.
  intros Hd Hg Hw.
  assert (H : serve_request kv socket_file = Next kv' rest sent)
    by (unfold serve_request, respond; now rewrite Hd, Hg, Hw).
  split; [now apply connection_handler_next|].
  intros ->. now rewrite (connection_handler_next _ _ _ _ _ H).
Qed.

Lemma session_serves_requests_in_order_witness :
  connection_handler []
    (bytes_of "+set k v" ++ CRLF ++ bytes_of "+get k" ++ CRLF)
  = {| store := store (connection_handler
                         [(VBytes (bytes_of "k"), VBytes (bytes_of "v"))]
                         (bytes_of "+get k" ++ CRLF));
       written := (bytes_of ":1" ++ CRLF)
                  :: written (connection_handler
                                [(VBytes (bytes_of "k"), VBytes (bytes_of "v"))]
                                (bytes_of "+get k" ++ CRLF));
       ending := ending (connection_handler
                           [(VBytes (bytes_of "k"), VBytes (bytes_of "v"))]
                           (bytes_of "+get k" ++ CRLF)) |}.
Proof.
  apply (session_serves_requests_in_order []
           [(VBytes (bytes_of "k"), VBytes (bytes_of "v"))]
           (bytes_of "+set k v" ++ CRLF ++ bytes_of "+get k" ++ CRLF)
           (bytes_of "+get k" ++ CRLF)
           (VBytes (bytes_of "set k v")) (VInt 1) (bytes_of ":1" ++ CRLF));
    reflexivity.
Defined.

Lemma serve_request_stop (kv kv' : pydict) (f : stream) (why : session_end) :
  serve_request kv f = Stop kv' why ->
  why = Closed \/ exists e, why = Escaped e /\ session_exn e.
Proof.
  unfold serve_request, session_exn.
  destruct (decode f server_side) as [[data f1]|e|] eqn:Hd.
  - unfold respond.
    pose proof (get_response_outcome kv data) as Hno.
    destruct (get_response kv data) as [kv1 [resp|e|]] eqn:Hg; simpl in Hno;
      [| |contradiction].
    + unfold write_response.
      destruct (write_outcome resp) as [[w Hw] | Hw]; rewrite Hw;
        [discriminate|].
      intros H. inversion H. right. eexists. split; [reflexivity | tauto].
    + destruct (get_response_raises kv _ _ _ Hg)
        as [[m ->] | [-> | [-> | ->]]].
      * simpl. intros H. inversion H. right. eexists.
        split; [reflexivity | tauto].
      * intros H. inversion H. right. eexists. split; [reflexivity | tauto].
      * intros H. inversion H. right. eexists. split; [reflexivity | tauto].
      * intros H. inversion H. right. eexists. split; [reflexivity | tauto].
  - destruct (proj1 (handle_request_exceptions _ _ _ _ Hd))
      as [-> | [-> | [-> | [-> | ->]]]];
      intros H; inversion H; try (now left);
      right; eexists; (split; [reflexivity | tauto]).
  - now apply decode_total in Hd.
Qed.

Lemma serve_outcomes (fuel : nat) : forall kv f,
  (List.length f < fuel)%nat ->
  let s := serve fuel kv f in
  (ending s = Closed \/ exists e, ending s = Escaped e /\ session_exn e)
  /\ (List.length (written s) <= List.length f)%nat.
Proof.
  induction fuel as [|fuel IH]; intros kv f Hf; [lia|].
  simpl. pose proof (serve_request_outcome kv f) as Ho.
  destruct (serve_request kv f) as [kv' f' sent | kv' why] eqn:E; simpl.
  - destruct (IH kv' f') as [He Hl]; [lia|]. split; [exact He | lia].
  - split; [exact (serve_request_stop _ _ _ _ E) | lia].
Qed.

(** X23: how a session ends.  On every input the loop stops, and it has
    written at most one response for each byte of the input.  A
    [Disconnect] never leaves the handler: it is the [break] that closes
    the session.  A [CommandError] that ends the session is the decoder's
    "bad request": the one of the dispatcher is caught and never ends
    it. *)
Theorem session_outcomes (kv : pydict) (socket_file : stream) :
  let s := connection_handler kv socket_file in
  ending s <> Unfinished
  /\ (List.length (written s) <= List.length socket_file)%nat
  /\ ending s <> Escaped Disconnect
  /\ (forall message,
        ending s = Escaped (CommandError message) ->
        message = "bad request"%string).
Proof.
  intros s.
  destruct (serve_outcomes (S (List.length socket_file)) kv socket_file)
    as [He Hl]; [lia|].
  fold (connection_handler kv socket_file) in He, Hl. fold s in He, Hl.
  split; [apply connection_handler_ends|]. split; [exact Hl|].
  unfold session_exn in He. split.
  - destruct He as [E | (e & E & He)]; rewrite E; [discriminate|].
    destruct He as [-> | [-> | [-> | [-> | [-> | ->]]]]]; discriminate.
  - intros message Hm. rewrite Hm in He.
    destruct He as [E | (e & E & He)]; [discriminate|].
    inversion E; subst e.
    destruct He as [E' | [E' | [E' | [E' | [E' | E']]]]];
      try discriminate E'.
    now inversion E'.
Qed.

(** ** What a client reads *)

Lemma bulk_decode (b : bytes) (side : Z) (rest : stream) :
  decode (x24 :: format_d (Z.of_nat (List.length b)) ++ CRLF
            ++ b ++ CRLF ++ rest) side
  = if side =? server_side then Ok (VBytes b, rest)
    else data <- decode_ascii b ;; Ok (VStr data, rest).
Proof.
  rewrite decode_bulk, handle_string_number.
  destruct (Z.eqb_spec (Z.of_nat (List.length b)) (-1)) as [E|E]; [lia|].
  unfold read.
  destruct (Z.ltb_spec (Z.of_nat (List.length b) + 2) (-1)) as [E1|E1];
    [lia|].
  destruct (Z.eqb_spec (Z.of_nat (List.length b) + 2) (-1)) as [E2|E2];
    [lia|].
  replace (Z.to_nat (Z.of_nat (List.length b) + 2))
    with (List.length (b ++ CRLF)) by (rewrite length_app; simpl; lia).
  rewrite app_assoc, firstn_length_app, skipn_length_app. cbn [bind].
  now rewrite drop_last2_crlf.
Qed.

Lemma int_decode (n : Z) (side : Z) (rest : stream) :
  decode (x3a :: format_d n ++ CRLF ++ rest) side = Ok (VInt n, rest).
Proof.
  rewrite decode_cons. simpl handlers. cbv beta iota.
  unfold handle_integer. destruct (read_number n rest) as [Hl Hi].
  now rewrite Hl, Hi.
Qed.

Lemma utf8_char_ascii (c : ascii) :
  forallb is_ascii (utf8_char c) = true -> utf8_char c = [byte_of_ascii c].
Proof.
  destruct c as [b0 b1 b2 b3 b4 b5 b6 b7].
  destruct b0, b1, b2, b3, b4, b5, b6, b7; intros H;
    try reflexivity; discriminate H.
Qed.

(** Text whose UTF-8 bytes are ASCII is those bytes. *)
Lemma utf8_ascii (s : string) :
  forallb is_ascii (encode_utf8 s) = true ->
  string_of_list_byte (encode_utf8 s) = s.
Proof.
  induction s as [|c t IH]; intros H; [reflexivity|].
  simpl in H. rewrite forallb_app in H. apply andb_true_iff in H.
  destruct H as [Hc Ht]. simpl encode_utf8. rewrite (utf8_char_ascii c Hc).
  unfold string_of_list_byte in *. simpl.
  now rewrite ascii_of_byte_of_ascii, IH.
Qed.

Lemma write_items_roundtrip_in (side : Z) (image : pyval -> pyval)
    (items : list pyval) :
  Forall (fun v => roundtrips_in side v (image v)) items ->
  exists body,
    write_items items = Ok body
    /\ forall rest,
         comprehension (List.length items) (fun f => decode f side)
           (body ++ rest)
         = Ok (map image items, rest).
Proof.
  induction 1 as [|a t (w & Hw & Hd) _ (body & Hb & Hc)].
  - exists []. split; reflexivity.
  - exists (w ++ body). split; [simpl; now rewrite Hw, Hb|].
    intros rest. cbn [comprehension List.length map].
    rewrite <- app_assoc, Hd. cbn [bind]. now rewrite Hc.
Qed.

Lemma list_roundtrip_in (side : Z) (image : pyval -> pyval)
    (items : list pyval) :
  Forall (fun v => roundtrips_in side v (image v)) items ->
  roundtrips_in side (VList items) (VList (map image items)).
Proof.
  intros H. destruct (write_items_roundtrip_in side image items H)
    as (body & Hb & Hc).
  exists ([x2a] ++ format_d (Z.of_nat (List.length items)) ++ CRLF ++ body).
  split; [rewrite write_list, Hb; reflexivity|].
  intros rest. rewrite <- !app_assoc. cbn [app].
  rewrite decode_array. unfold handle_array.
  destruct (read_number (Z.of_nat (List.length items)) (body ++ rest))
    as [Hl Hi].
  rewrite Hl, Hi. cbn [bind]. now rewrite Nat2Z.id, Hc.
Qed.

Lemma textual_roundtrips (side : Z) (v : pyval) :
  side <> server_side -> textual v = true ->
  roundtrips_in side v (client_image v).
Proof.
  intros Hside.
  assert (Hm : (side =? server_side) = false) by now apply Z.eqb_neq.
  induction v as [| n | b | s | m IH | items IH | items IH | entries IH]
    using pyval_induction; intros Ht; try discriminate.
  - exists ([x24] ++ format_d (-1) ++ CRLF). split; [reflexivity|].
    intros rest. rewrite <- !app_assoc. cbn [app].
    now rewrite decode_bulk, handle_string_number.
  - exists ([x3a] ++ format_d n ++ CRLF). split; [reflexivity|].
    intros rest. rewrite <- !app_assoc. cbn [app]. apply int_decode.
  - exists ([x24] ++ format_d (Z.of_nat (List.length b)) ++ CRLF ++ b ++ CRLF).
    split; [reflexivity|]. intros rest. rewrite <- !app_assoc. cbn [app].
    rewrite bulk_decode, Hm. unfold decode_ascii. simpl in Ht.
    now rewrite Ht.
  - exists ([x24] ++ format_d (Z.of_nat (List.length (encode_utf8 s))) ++ CRLF
              ++ encode_utf8 s ++ CRLF).
    split; [reflexivity|]. intros rest. rewrite <- !app_assoc. cbn [app].
    rewrite bulk_decode, Hm. unfold decode_ascii. simpl in Ht.
    rewrite Ht. cbn [bind]. now rewrite (utf8_ascii s Ht).
  - simpl in Ht. rewrite forallb_forall in Ht. apply list_roundtrip_in.
    rewrite Forall_forall in *. auto.
  - simpl in Ht. rewrite forallb_forall in Ht.
    unfold roundtrips_in. rewrite write_tuple.
    apply (list_roundtrip_in side client_image).
    rewrite Forall_forall in *. auto.
Qed.

(** X24: what a reader in client-side mode, or in any mode but the
    server's, gets of what was written.  A value made of ASCII bytes, ASCII
    text, integers, [None], lists and tuples is read back with its bytes
    turned into text and its tuples into lists; bytes that are not ASCII
    make the reader raise [UnicodeDecodeError]. *)
Theorem client_reads_what_was_sent (side : Z) :
  side <> server_side ->
  (forall v, textual v = true ->
     exists wire,
       _write v = Ok wire
       /\ forall rest, decode (wire ++ rest) side = Ok (client_image v, rest))
  /\ (forall b rest, forallb is_ascii b = false ->
        exists wire,
          _write (VBytes b) = Ok wire
          /\ decode (wire ++ rest) side = Raise UnicodeDecodeError).
Proof.
  intros Hside. split.
  - intros v Hv. exact (textual_roundtrips side v Hside Hv).
  - intros b rest Hb.
    exists ([x24] ++ format_d (Z.of_nat (List.length b)) ++ CRLF ++ b ++ CRLF).
    split; [reflexivity|]. rewrite <- !app_assoc. cbn [app].
    rewrite bulk_decode. apply Z.eqb_neq in Hside. rewrite Hside.
    unfold decode_ascii. now rewrite Hb.
Qed.

Lemma client_reads_what_was_sent_witness :
  exists wire,
    _write (VList [VBytes (bytes_of "v"); VNone]) = Ok wire
    /\ forall rest,
         decode (wire ++ rest) client_side
         = Ok (client_image (VList [VBytes (bytes_of "v"); VNone]), rest).
Proof.
  apply (proj1 (client_reads_what_was_sent client_side
                  ltac:(discriminate))
           (VList [VBytes (bytes_of "v"); VNone])).
  reflexivity.
Defined.

(** ** The client *)

(** In a mode other than the server's, the message of a decoded [Error]
    is text. *)
Lemma client_error_message (f : stream) (side : Z) (m : pyval) (rest : stream) :
  side <> server_side ->
  decode f side = Ok (VError m, rest) -> exists s, m = VStr s.
Proof.
  intros Hside H. apply Z.eqb_neq in Hside.
  destruct f as [|c t]; [discriminate|].
  rewrite decode_cons in H.
  destruct c; simpl in H; try discriminate H.
  - unfold handle_string in H. destruct (readline t) as [line r].
    destruct (py_int (rstrip is_crlf line)) as [n| |]; simpl in H;
      try discriminate H.
    destruct (n =? -1); [discriminate H|].
    destruct (read (n + 2) r) as [[chunk r']| |]; simpl in H;
      try discriminate H.
    rewrite Hside in H.
    destruct (decode_ascii (drop_last2 chunk)); discriminate H.
  - apply handle_dict_Ok in H. destruct H as (n & els & d & _ & _ & _ & H).
    discriminate H.
  - apply handle_array_Ok in H. destruct H as (n & els & _ & _ & H).
    discriminate H.
  - unfold handle_simple_string in H. destruct (readline t) as [line r].
    rewrite Hside in H.
    destruct (decode_ascii (rstrip is_crlf line)); discriminate H.
  - unfold handle_error in H. destruct (readline t) as [line r].
    rewrite Hside in H.
    destruct (decode_ascii (rstrip is_crlf line)) as [s| |]; simpl in H;
      try discriminate H.
    inversion H. eauto.
  - unfold handle_integer in H. destruct (readline t) as [line r].
    destruct (py_int (rstrip is_crlf line)); discriminate H.
Qed.

(** X25: a call of [Client.execute].  Arguments that hold an [Error] are
    never sent, and the call does not return.  When the tuple of the
    arguments is written, it is written once and the reply decides the
    outcome: an error line raises [CommandError] with the text of the line,
    as does every decoded [Error], whose message is always text; a server
    that sent nothing and closed raises [Disconnect]; and every other
    decoded value is returned as it is. *)
Theorem execute_outcomes (fh : stream) (args : list pyval) :
  (has_error (VTuple args) = true ->
   fst (Client.execute fh args) = []
   /\ forall r, snd (Client.execute fh args) <> Ok r)
  /\ (forall sent,
        write_response (VTuple args) = Ok sent ->
        fst (Client.execute fh args) = [sent]
        /\ (fh = [] -> snd (Client.execute fh args) = Raise Disconnect)
        /\ (forall text k rest,
              fh = x2d :: text ++ repeat CR k ++ LF :: rest ->
              Forall (fun c => is_crlf c = false) text ->
              forallb is_ascii text = true ->
              snd (Client.execute fh args)
              = Raise (CommandError (string_of_list_byte text)))
        /\ (forall message rest,
              decode fh client_side = Ok (VError message, rest) ->
              exists s,
                message = VStr s
                /\ snd (Client.execute fh args) = Raise (CommandError s))
        /\ (forall v rest,
              decode fh client_side = Ok (v, rest) ->
              match v with VError _ => False | _ => True end ->
              snd (Client.execute fh args) = Ok (v, rest))).
Proof.
  unfold Client.execute. split.
  - intros H. unfold write_response.
    rewrite (proj2 (write_errors (VTuple args)) H).
    split; [reflexivity | discriminate].
  - intros sent Hs. rewrite Hs.
    split; [reflexivity|]. split; [|split; [|split]].
    + now intros ->.
    + intros text k rest -> Ht Ha. cbn [snd].
      destruct (text_line_decode text k rest client_side Ht) as [_ Hd].
      rewrite Hd. unfold decode_ascii. now rewrite Ha.
    + intros message rest Hd.
      assert (Hne : client_side <> server_side) by discriminate.
      destruct (client_error_message _ _ _ _ Hne Hd) as [s0 ->].
      exists s0. split; [reflexivity|]. cbn [snd]. now rewrite Hd.
    + intros v rest Hd Hv. cbn [snd]. rewrite Hd. cbn [bind].
      destruct v; try reflexivity. contradiction.
Qed.

(** GET of a key, answered by an error line. *)
Lemma execute_outcomes_witness :
  snd (Client.execute (bytes_of "-no such key" ++ CRLF)
         [VStr "GET"; VStr "k"])
  = Raise (CommandError "no such key").
Proof.
  destruct (proj2 (execute_outcomes (bytes_of "-no such key" ++ CRLF)
                     [VStr "GET"; VStr "k"])
              (bytes_of "*2" ++ CRLF ++ bytes_of "$3" ++ CRLF
                 ++ bytes_of "GET" ++ CRLF ++ bytes_of "$1" ++ CRLF
                 ++ bytes_of "k" ++ CRLF) eq_refl)
    as (_ & _ & Hline & _).
  apply (Hline (bytes_of "no such key") 1%nat []).
  - reflexivity.
  - repeat constructor.
  - reflexivity.
Defined.


